(** * Dreamer world model (model.py): a shallow embedding and its properties

    The embedding follows [model.py].  Tensor entries are real numbers (the
    spec's "fixed-dimension real vector"); rounding of the float32 substrate
    is outside this development.  A 2-D tensor is its feature width together
    with its list of rows, so that a batch of zero rows still has a width,
    as a torch tensor of shape (0, S) does.

    Tensors live in a store and are passed by reference, as Python objects
    are; every torch operation the source calls allocates its result.  The
    default random generator is part of the world as well: it is the only
    source of randomness ([Normal.rsample]). *)

From Stdlib Require Import Reals Lra Lia List Arith Bool.
Import ListNotations.

Local Open Scope R_scope.

(** ** Results of fallible calls *)

Definition ref := nat.

(** The exceptions the torch substrate raises on the paths modelled here. *)
Inductive error : Type :=
| DimMismatch (expected actual : nat)    (* feature width of an argument *)
| BatchMismatch (left right : nat)       (* dimension 0 of two arguments *)
| ShapeMismatch (left right : nat * nat) (* elementwise operands *)
| KernelTooLarge (kernel extent : nat)   (* Conv2d on a too small input *)
| AmbiguousReshape                       (* reshape(0, -1) *)
| Dangling (r : ref).                    (* a reference outside the store *)

Inductive Res (A : Type) : Type :=
| Ok (a : A)
| Err (e : error).
Arguments Ok {A} a.
Arguments Err {A} e.

Definition res_bind {A B} (r : Res A) (k : A -> Res B) : Res B :=
  match r with
  | Ok a => k a
  | Err e => Err e
  end.

Declare Scope res_scope.
Delimit Scope res_scope with res.
Notation "x <-- c ;; k" := (res_bind c (fun x => k))
  (at level 61, c at next level, right associativity) : res_scope.

(** ** Scalar functions of torch.nn.functional *)

(** [F.softplus] with its defaults beta = 1, threshold = 20: above the
    threshold the function is the identity. *)
Definition F_softplus (x : R) : R :=
  if Rlt_dec 20 x then x else ln (1 + exp x).

(** [F.elu] with alpha = 1, the default activation of the models. *)
Definition F_elu (x : R) : R :=
  if Rlt_dec 0 x then x else exp x - 1.

Definition F_relu (x : R) : R :=
  if Rlt_dec 0 x then x else 0.

Definition sigmoid (x : R) : R := 1 / (1 + exp (- x)).

(** ** Lists *)

Fixpoint zip_with {A B C} (f : A -> B -> C) (u : list A) (v : list B) : list C :=
  match u, v with
  | a :: u', b :: v' => f a b :: zip_with f u' v'
  | _, _ => []
  end.

Definition sum_list (l : list R) : R := fold_right Rplus 0 l.

Definition dot (u v : list R) : R := sum_list (zip_with Rmult u v).

(** ** 2-D tensors *)

Record Tensor : Type := mkTensor { width : nat; rows : list (list R) }.

Definition batch (t : Tensor) : nat := length (rows t).

(** [has_shape t b w]: [t] is a tensor of shape (b, w). *)
Definition has_shape (t : Tensor) (b w : nat) : bool :=
  (batch t =? b)%nat && (width t =? w)%nat &&
  forallb (fun r => (length r =? w)%nat) (rows t).


(** Row [i] of a batch as a batch of its own, of one row. *)
Definition row_of (i : nat) (t : Tensor) : Tensor :=
  {| width := width t; rows := [nth i (rows t) []] |}.

Module T.

(** [torch.cat([a, b], dim=1)] *)
Definition cat (a b : Tensor) : Res Tensor :=
  if (batch a =? batch b)%nat
  then Ok {| width := width a + width b;
             rows := zip_with (@app R) (rows a) (rows b) |}
  else Err (BatchMismatch (batch a) (batch b)).

(** A unary element-wise operation. *)
Definition map (f : R -> R) (x : Tensor) : Tensor :=
  {| width := width x; rows := List.map (List.map f) (rows x) |}.

(** A binary element-wise operation on operands of one shape.  The source
    only combines the two heads of one hidden layer, which have the same
    shape; broadcasting of unequal shapes is not modelled and reported as
    an error. *)
Definition map2 (f : R -> R -> R) (x y : Tensor) : Res Tensor :=
  if ((batch x =? batch y) && (width x =? width y))%nat
  then Ok {| width := width x;
             rows := zip_with (zip_with f) (rows x) (rows y) |}
  else Err (ShapeMismatch (batch x, width x) (batch y, width y)).

End T.

(** ** torch.nn modules: parameters and the function each computes *)

(** [y = x W^T + b] on one row; [W] has one row per output feature. *)
Definition affine (W : list (list R)) (b : list R) (x : list R) : list R :=
  zip_with (fun w_o b_o => dot x w_o + b_o) W b.

Module Linear.

Record t : Type := mk {
  in_features : nat;
  out_features : nat;
  weight : list (list R);   (* out_features x in_features *)
  bias : list R             (* out_features *)
}.

(** The parameter shapes [nn.Linear(i, o)] creates. *)
Definition init (i o : nat) (l : t) : bool :=
  (in_features l =? i)%nat && (out_features l =? o)%nat &&
  (length (weight l) =? o)%nat && (length (bias l) =? o)%nat &&
  forallb (fun r => (length r =? i)%nat) (weight l).

Definition forward (l : t) (x : Tensor) : Res Tensor :=
  if (width x =? in_features l)%nat
  then Ok {| width := out_features l;
             rows := List.map (affine (weight l) (bias l)) (rows x) |}
  else Err (DimMismatch (in_features l) (width x)).

End Linear.

Module GRUCell.

Record t : Type := mk {
  input_size : nat;
  hidden_size : nat;
  weight_ih : list (list R);   (* 3*hidden_size x input_size, gates r, z, n *)
  weight_hh : list (list R);   (* 3*hidden_size x hidden_size *)
  bias_ih : list R;            (* 3*hidden_size *)
  bias_hh : list R             (* 3*hidden_size *)
}.

(** The parameter shapes [nn.GRUCell(i, h)] creates. *)
Definition init (i h : nat) (c : t) : bool :=
  (input_size c =? i)%nat && (hidden_size c =? h)%nat &&
  (length (weight_ih c) =? 3 * h)%nat && (length (bias_ih c) =? 3 * h)%nat &&
  (length (weight_hh c) =? 3 * h)%nat && (length (bias_hh c) =? 3 * h)%nat &&
  forallb (fun r => (length r =? i)%nat) (weight_ih c) &&
  forallb (fun r => (length r =? h)%nat) (weight_hh c).

(** One row of the gated update:
      r  = sigmoid(W_ir x + b_ir + W_hr h + b_hr)
      z  = sigmoid(W_iz x + b_iz + W_hz h + b_hz)
      n  = tanh(W_in x + b_in + r * (W_hn h + b_hn))
      h' = (1 - z) * n + z * h *)
Definition cell (c : t) (x h : list R) : list R :=
  let n_h := hidden_size c in
  let gi := affine (weight_ih c) (bias_ih c) x in
  let gh := affine (weight_hh c) (bias_hh c) h in
  let r := zip_with (fun a b => sigmoid (a + b))
             (firstn n_h gi) (firstn n_h gh) in
  let z := zip_with (fun a b => sigmoid (a + b))
             (firstn n_h (skipn n_h gi)) (firstn n_h (skipn n_h gh)) in
  let n := zip_with (fun a b => tanh (a + b))
             (skipn (2 * n_h) gi)
             (zip_with Rmult r (skipn (2 * n_h) gh)) in
  zip_with (fun zn h_j => (1 - fst zn) * snd zn + fst zn * h_j)
    (combine z n) h.

Definition forward (c : t) (x h : Tensor) : Res Tensor :=
  if negb (width x =? input_size c)%nat
  then Err (DimMismatch (input_size c) (width x))
  else if negb (batch x =? batch h)%nat
  then Err (BatchMismatch (batch x) (batch h))
  else if negb (width h =? hidden_size c)%nat
  then Err (DimMismatch (hidden_size c) (width h))
  else Ok {| width := hidden_size c;
             rows := zip_with (cell c) (rows x) (rows h) |}.

End GRUCell.

(** ** The world: tensor store and random generator *)

Record World : Type := mkWorld {
  heap : list Tensor;   (* reference r is the r-th allocated tensor *)
  gen : nat -> R        (* the standard-normal variates still to be drawn *)
}.

Definition points_to (w : World) (r : ref) (t : Tensor) : Prop :=
  nth_error (heap w) r = Some t.

(** [r] is not allocated in [w]. *)
Definition fresh (w : World) (r : ref) : Prop := (length (heap w) <= r)%nat.

(** [w'] has every tensor of [w], unchanged, and the generator of [w]. *)
Definition extends (w w' : World) : Prop :=
  (exists more, heap w' = heap w ++ more) /\ gen w' = gen w.

Definition M (A : Type) : Type := World -> Res (A * World).

Definition ret {A} (a : A) : M A := fun w => Ok (a, w).

Definition bind {A B} (c : M A) (k : A -> M B) : M B :=
  fun w => match c w with
           | Ok (a, w') => k a w'
           | Err e => Err e
           end.

Declare Scope torch_scope.
Delimit Scope torch_scope with torch.
Notation "x <- c ;; k" := (bind c (fun x => k))
  (at level 61, c at next level, right associativity) : torch_scope.
Notation "' p <- c ;; k" := (bind c (fun x => let 'p := x in k))
  (at level 61, p pattern, c at next level, right associativity) : torch_scope.

Definition load (r : ref) : M Tensor :=
  fun w => match nth_error (heap w) r with
           | Some t => Ok (t, w)
           | None => Err (Dangling r)
           end.

Definition alloc (t : Tensor) (w : World) : World :=
  {| heap := heap w ++ [t]; gen := gen w |}.

Definition new (t : Tensor) : M ref :=
  fun w => Ok (length (heap w), alloc t w).

Definition lift {A} (r : Res A) : M A :=
  fun w => match r with
           | Ok a => Ok (a, w)
           | Err e => Err e
           end.

(** [b * n] variates off the generator, as a tensor of shape (b, n). *)
Definition draw (b n : nat) (g : nat -> R) : Tensor :=
  {| width := n;
     rows := map (fun i => map (fun j => g (i * n + j)%nat) (seq 0 n)) (seq 0 b) |}.

(** The generator after [n] variates have been drawn. *)
Definition advance (n : nat) (w : World) : World :=
  {| heap := heap w; gen := fun k => gen w (n + k)%nat |}.

Definition standard_normal (b n : nat) : M ref :=
  fun w => Ok (length (heap w), advance (b * n) (alloc (draw b n (gen w)) w)).

(** An operation that reads one tensor and allocates its result. *)
Definition op1 (f : Tensor -> Res Tensor) (x : ref) : M ref :=
  (tx <- load x ;; t <- lift (f tx) ;; new t)%torch.

(** An operation that reads two tensors and allocates its result. *)
Definition op2 (f : Tensor -> Tensor -> Res Tensor) (x y : ref) : M ref :=
  (tx <- load x ;; ty <- load y ;; t <- lift (f tx ty) ;; new t)%torch.

Definition torch_cat : ref -> ref -> M ref := op2 T.cat.
Definition nn_Linear (l : Linear.t) : ref -> M ref := op1 (Linear.forward l).
Definition nn_GRUCell (c : GRUCell.t) : ref -> ref -> M ref :=
  op2 (GRUCell.forward c).
Definition pointwise (f : R -> R) : ref -> M ref :=
  op1 (fun x => Ok (T.map f x)).
Definition torch_tanh : ref -> M ref := pointwise tanh.
Definition torch_add : ref -> ref -> M ref := op2 (T.map2 Rplus).
Definition torch_mul : ref -> ref -> M ref := op2 (T.map2 Rmult).

(** An in-place operation ([x.add_(c)], [F.elu(x, inplace=True)])
    overwrites the tensor its argument refers to and returns the same
    reference.  The store supports it; the models call no such operation. *)
Definition store (r : ref) (t : Tensor) : M unit :=
  fun w => if (r <? length (heap w))%nat
           then Ok (tt, {| heap := firstn r (heap w) ++ t :: skipn (S r) (heap w);
                           gen := gen w |})
           else Err (Dangling r).

Definition pointwise_ (f : R -> R) (x : ref) : M ref :=
  (tx <- load x ;; _ <- store x (T.map f tx) ;; ret x)%torch.

(** [torch.distributions.Normal]: the object keeps its two parameter
    tensors.  The optional validation of the arguments is not modelled;
    with a floor [min_stddev >= 0] the scale the models pass is positive. *)
Record Normal : Type := mkNormal { loc : ref; scale : ref }.

(** [Normal.rsample()]: [loc + eps * scale] with [eps] drawn from the
    generator in the shape of the parameters. *)
Definition rsample (d : Normal) : M ref :=
  (m <- load (loc d) ;;
   eps <- standard_normal (batch m) (width m) ;;
   noise <- torch_mul eps (scale d) ;;
   torch_add (loc d) noise)%torch.

(** Tensor-with-scalar arithmetic of Python: [t + c], [c * t], [t / c]. *)
Definition add_scalar (c : R) : ref -> M ref := pointwise (fun v => v + c).
Definition mul_scalar (c : R) : ref -> M ref := pointwise (fun v => c * v).
Definition div_scalar (c : R) : ref -> M ref := pointwise (fun v => v / c).

(** ** class RecurrentStateSpaceModel *)

Module RecurrentStateSpaceModel.

Record t : Type := mk {
  state_dim : nat;
  action_dim : nat;
  rnn_hidden_dim : nat;
  fc_state_action : Linear.t;
  fc_rnn_hidden : Linear.t;
  fc_state_mean_prior : Linear.t;
  fc_state_stddev_prior : Linear.t;
  fc_rnn_hidden_embedded_obs : Linear.t;
  fc_state_mean_posterior : Linear.t;
  fc_state_stddev_posterior : Linear.t;
  rnn : GRUCell.t;
  _min_stddev : R;
  act : R -> R       (* applied element-wise, as F.elu is *)
}.

(** What [__init__(state_dim, action_dim, rnn_hidden_dim, hidden_dim)]
    fixes: the three widths and the shape of every parameter. *)
Definition init (S A H hidden_dim : nat) (self : t) : bool :=
  (state_dim self =? S)%nat && (action_dim self =? A)%nat &&
  (rnn_hidden_dim self =? H)%nat &&
  Linear.init (S + A) hidden_dim (fc_state_action self) &&
  Linear.init H hidden_dim (fc_rnn_hidden self) &&
  Linear.init hidden_dim S (fc_state_mean_prior self) &&
  Linear.init hidden_dim S (fc_state_stddev_prior self) &&
  Linear.init (H + 1024) hidden_dim (fc_rnn_hidden_embedded_obs self) &&
  Linear.init hidden_dim S (fc_state_mean_posterior self) &&
  Linear.init hidden_dim S (fc_state_stddev_posterior self) &&
  GRUCell.init hidden_dim H (rnn self).

Local Open Scope torch_scope.

Definition prior (self : t) (state action rnn_hidden : ref)
  : M (Normal * ref) :=
  x <- torch_cat state action ;;
  y <- nn_Linear (fc_state_action self) x ;;
  hidden <- pointwise (act self) y ;;
  rnn_hidden <- nn_GRUCell (rnn self) hidden rnn_hidden ;;
  y <- nn_Linear (fc_rnn_hidden self) rnn_hidden ;;
  hidden <- pointwise (act self) y ;;
  mean <- nn_Linear (fc_state_mean_prior self) hidden ;;
  raw <- nn_Linear (fc_state_stddev_prior self) hidden ;;
  sp <- pointwise F_softplus raw ;;
  stddev <- add_scalar (_min_stddev self) sp ;;
  ret (mkNormal mean stddev, rnn_hidden).

Definition posterior (self : t) (rnn_hidden embedded_obs : ref) : M Normal :=
  x <- torch_cat rnn_hidden embedded_obs ;;
  y <- nn_Linear (fc_rnn_hidden_embedded_obs self) x ;;
  hidden <- pointwise (act self) y ;;
  mean <- nn_Linear (fc_state_mean_posterior self) hidden ;;
  raw <- nn_Linear (fc_state_stddev_posterior self) hidden ;;
  sp <- pointwise F_softplus raw ;;
  stddev <- add_scalar (_min_stddev self) sp ;;
  ret (mkNormal mean stddev).

Definition forward (self : t) (state action rnn_hidden embedded_next_obs : ref)
  : M (Normal * Normal * ref) :=
  ' (next_state_prior, rnn_hidden) <- prior self state action rnn_hidden ;;
  next_state_posterior <- posterior self rnn_hidden embedded_next_obs ;;
  ret (next_state_prior, next_state_posterior, rnn_hidden).

End RecurrentStateSpaceModel.

(** ** class ActionModel *)

Module ActionModel.

Record t : Type := mk {
  fc1 : Linear.t;
  fc2 : Linear.t;
  fc3 : Linear.t;
  fc4 : Linear.t;
  fc_mean : Linear.t;
  fc_stddev : Linear.t;
  act : R -> R;
  min_stddev : R;
  init_stddev : R
}.

(** [__init__]: parameter shapes, and the stored [init_stddev], which is
    [np.log(np.exp(init_stddev) - 1)] of the argument. *)
Definition init (state_dim rnn_hidden_dim action_dim hidden_dim : nat)
  (init_stddev_arg : R) (self : t) : Prop :=
  Linear.init (state_dim + rnn_hidden_dim) hidden_dim (fc1 self) = true /\
  Linear.init hidden_dim hidden_dim (fc2 self) = true /\
  Linear.init hidden_dim hidden_dim (fc3 self) = true /\
  Linear.init hidden_dim hidden_dim (fc4 self) = true /\
  Linear.init hidden_dim action_dim (fc_mean self) = true /\
  Linear.init hidden_dim action_dim (fc_stddev self) = true /\
  init_stddev self = ln (exp init_stddev_arg - 1).

Local Open Scope torch_scope.

(** Lines 205-218 of [forward]: the parameters of the action distribution. *)
Definition distribution (self : t) (state rnn_hidden : ref) : M Normal :=
  x <- torch_cat state rnn_hidden ;;
  y <- nn_Linear (fc1 self) x ;;
  hidden <- pointwise (act self) y ;;
  y <- nn_Linear (fc2 self) hidden ;;
  hidden <- pointwise (act self) y ;;
  y <- nn_Linear (fc3 self) hidden ;;
  hidden <- pointwise (act self) y ;;
  y <- nn_Linear (fc4 self) hidden ;;
  hidden <- pointwise (act self) y ;;
  mean <- nn_Linear (fc_mean self) hidden ;;
  q <- div_scalar 5 mean ;;
  th <- torch_tanh q ;;
  mean <- mul_scalar 5 th ;;
  stddev <- nn_Linear (fc_stddev self) hidden ;;
  shifted <- add_scalar (init_stddev self) stddev ;;
  sp <- pointwise F_softplus shifted ;;
  stddev <- add_scalar (min_stddev self) sp ;;
  ret (mkNormal mean stddev).

Definition forward (self : t) (state rnn_hidden : ref) (training : bool)
  : M ref :=
  d <- distribution self state rnn_hidden ;;
  if training
  then (sample <- rsample d ;; torch_tanh sample)
  else torch_tanh (loc d).

End ActionModel.

(** ** The operations as functions of tensor values

    What the spec (section 4.1, section 4.2) says each operation computes,
    written on tensor values; the classes above are proved to compute
    exactly these. *)

Module Spec.

Import RecurrentStateSpaceModel.
Local Open Scope res_scope.

(** "stddev = softplus(raw) + min_stddev" *)
Definition stabilize (min_stddev : R) (raw : Tensor) : Tensor :=
  T.map (fun v => F_softplus v + min_stddev) raw.

(** prior(state, action, det_state): (mean, stddev, next_det_state) *)
Definition prior (self : t) (state action det_state : Tensor)
  : Res (Tensor * Tensor * Tensor) :=
  x <-- T.cat state action ;;
  y <-- Linear.forward (fc_state_action self) x ;;
  let embedding := T.map (act self) y in
  next_det_state <-- GRUCell.forward (rnn self) embedding det_state ;;
  y <-- Linear.forward (fc_rnn_hidden self) next_det_state ;;
  let h2 := T.map (act self) y in
  mean <-- Linear.forward (fc_state_mean_prior self) h2 ;;
  raw <-- Linear.forward (fc_state_stddev_prior self) h2 ;;
  Ok (mean, stabilize (_min_stddev self) raw, next_det_state).

(** posterior(det_state, embedded_obs): (mean, stddev) *)
Definition posterior (self : t) (det_state embedded_obs : Tensor)
  : Res (Tensor * Tensor) :=
  x <-- T.cat det_state embedded_obs ;;
  y <-- Linear.forward (fc_rnn_hidden_embedded_obs self) x ;;
  let hidden := T.map (act self) y in
  mean <-- Linear.forward (fc_state_mean_posterior self) hidden ;;
  raw <-- Linear.forward (fc_state_stddev_posterior self) hidden ;;
  Ok (mean, stabilize (_min_stddev self) raw).

(** step: "composes prior then posterior". *)
Definition step (self : t) (state action det_state embedded_next_obs : Tensor)
  : Res ((Tensor * Tensor) * (Tensor * Tensor) * Tensor) :=
  p <-- prior self state action det_state ;;
  let '(mean, stddev, next_det_state) := p in
  q <-- posterior self next_det_state embedded_next_obs ;;
  Ok ((mean, stddev), q, next_det_state).

(** The hidden layers of the action model. *)
Definition action_hidden (self : ActionModel.t) (state det_state : Tensor)
  : Res Tensor :=
  x <-- T.cat state det_state ;;
  y <-- Linear.forward (ActionModel.fc1 self) x ;;
  y <-- Linear.forward (ActionModel.fc2 self) (T.map (ActionModel.act self) y) ;;
  y <-- Linear.forward (ActionModel.fc3 self) (T.map (ActionModel.act self) y) ;;
  y <-- Linear.forward (ActionModel.fc4 self) (T.map (ActionModel.act self) y) ;;
  Ok (T.map (ActionModel.act self) y).

(** The action distribution: mean 5 tanh(raw / 5), stddev
    softplus(raw + init_stddev) + min_stddev. *)
Definition action_distribution (self : ActionModel.t)
  (state det_state : Tensor) : Res (Tensor * Tensor) :=
  hidden <-- action_hidden self state det_state ;;
  raw_mean <-- Linear.forward (ActionModel.fc_mean self) hidden ;;
  raw <-- Linear.forward (ActionModel.fc_stddev self) hidden ;;
  Ok (T.map (fun v => 5 * tanh (v / 5)) raw_mean,
      T.map (fun v => F_softplus (v + ActionModel.init_stddev self)
                      + ActionModel.min_stddev self) raw).

(** Evaluation mode: the squashed mean. *)
Definition mode_action (self : ActionModel.t) (state det_state : Tensor)
  : Res Tensor :=
  d <-- action_distribution self state det_state ;;
  Ok (T.map tanh (fst d)).

(** Training mode: the squashed reparameterized sample
    [tanh(mean + eps * stddev)] for the noise [eps]. *)
Definition sample_action (self : ActionModel.t) (state det_state : Tensor)
  (g : nat -> R) : Res Tensor :=
  d <-- action_distribution self state det_state ;;
  noise <-- T.map2 Rmult (draw (batch (fst d)) (width (fst d)) g) (snd d) ;;
  sample <-- T.map2 Rplus (fst d) noise ;;
  Ok (T.map tanh sample).

End Spec.



(** ** 4-D tensors, nn.Conv2d and class Encoder *)

Definition plane := list (list R).     (* height x width *)
Definition image := list plane.        (* channels x height x width *)

Record Tensor4 : Type := mkTensor4 {
  channels : nat;
  height : nat;
  extent : nat;             (* the last dimension *)
  images : list image
}.

Definition batch4 (x : Tensor4) : nat := length (images x).

Definition plane_shape (h w : nat) (p : plane) : bool :=
  (length p =? h)%nat && forallb (fun r => (length r =? w)%nat) p.

Definition image_shape (c h w : nat) (i : image) : bool :=
  (length i =? c)%nat && forallb (plane_shape h w) i.

(** [has_shape4 x b c h w]: [x] is a tensor of shape (b, c, h, w). *)
Definition has_shape4 (x : Tensor4) (b c h w : nat) : bool :=
  (batch4 x =? b)%nat && (channels x =? c)%nat &&
  (height x =? h)%nat && (extent x =? w)%nat &&
  forallb (image_shape c h w) (images x).

Definition map4 (f : R -> R) (x : Tensor4) : Tensor4 :=
  {| channels := channels x; height := height x; extent := extent x;
     images := map (map (map (map f))) (images x) |}.

(** The row-major sequence of all entries. *)
Definition flatten_image (i : image) : list R := concat (map (@concat R) i).
Definition flatten (x : Tensor4) : list R :=
  concat (map flatten_image (images x)).

(** [count] consecutive pieces of [n] entries each. *)
Fixpoint chunk (n count : nat) (l : list R) : list (list R) :=
  match count with
  | O => []
  | S c => firstn n l :: chunk n c (skipn n l)
  end.

(** [x.reshape(b, -1)]: the width is inferred from the number of entries;
    it cannot be when [b] is 0. *)
Definition reshape (b : nat) (x : Tensor4) : Res Tensor :=
  let numel := (batch4 x * (channels x * (height x * extent x)))%nat in
  if (b =? 0)%nat
  then Err (if (numel =? 0)%nat then AmbiguousReshape else DimMismatch numel 0)
  else if (numel mod b =? 0)%nat
  then Ok {| width := numel / b; rows := chunk (numel / b) b (flatten x) |}
  else Err (DimMismatch numel b).

Module Conv2d.

(** Square kernel, no padding, no dilation: the keyword arguments the
    encoder passes are [kernel_size] and [stride]. *)
Record t : Type := mk {
  in_channels : nat;
  out_channels : nat;
  kernel_size : nat;
  stride : nat;
  weight : list image;   (* out_channels x in_channels x kernel x kernel *)
  bias : list R          (* out_channels *)
}.

(** The parameter shapes [nn.Conv2d(i, o, kernel_size=k, stride=s)] creates. *)
Definition init (i o k s : nat) (c : t) : bool :=
  (in_channels c =? i)%nat && (out_channels c =? o)%nat &&
  (kernel_size c =? k)%nat && (stride c =? s)%nat &&
  (length (weight c) =? o)%nat && (length (bias c) =? o)%nat &&
  forallb (image_shape i k k) (weight c).

(** Output extent of an input extent [n]. *)
Definition out_extent (k s n : nat) : nat := (n - k) / s + 1.

(** The [k] x [k] window of a plane with top-left corner (i, j). *)
Definition window (k i j : nat) (p : plane) : plane :=
  map (fun r => firstn k (skipn j r)) (firstn k (skipn i p)).

(** One output entry: the filter against the window of every channel. *)
Definition correlate (k i j : nat) (filter input : image) : R :=
  sum_list (zip_with
              (fun fp ip => sum_list (zip_with dot fp (window k i j ip)))
              filter input).

Definition conv_image (c : t) (oh ow : nat) (input : image) : image :=
  zip_with
    (fun filter b =>
       map (fun i =>
              map (fun j =>
                     correlate (kernel_size c) (i * stride c) (j * stride c)
                       filter input + b)
                (seq 0 ow))
         (seq 0 oh))
    (weight c) (bias c).

Definition forward (c : t) (x : Tensor4) : Res Tensor4 :=
  if negb (channels x =? in_channels c)%nat
  then Err (DimMismatch (in_channels c) (channels x))
  else if (height x <? kernel_size c)%nat
  then Err (KernelTooLarge (kernel_size c) (height x))
  else if (extent x <? kernel_size c)%nat
  then Err (KernelTooLarge (kernel_size c) (extent x))
  else
    let oh := out_extent (kernel_size c) (stride c) (height x) in
    let ow := out_extent (kernel_size c) (stride c) (extent x) in
    Ok {| channels := out_channels c; height := oh; extent := ow;
          images := map (conv_image c oh ow) (images x) |}.

End Conv2d.

Module Encoder.

Record t : Type := mk {
  cv1 : Conv2d.t;
  cv2 : Conv2d.t;
  cv3 : Conv2d.t;
  cv4 : Conv2d.t
}.

Definition init (self : t) : bool :=
  Conv2d.init 3 32 4 2 (cv1 self) && Conv2d.init 32 64 4 2 (cv2 self) &&
  Conv2d.init 64 128 4 2 (cv3 self) && Conv2d.init 128 256 4 2 (cv4 self).

Local Open Scope res_scope.

Definition forward (self : t) (obs : Tensor4) : Res Tensor :=
  y <-- Conv2d.forward (cv1 self) obs ;;
  let hidden := map4 F_relu y in
  y <-- Conv2d.forward (cv2 self) hidden ;;
  let hidden := map4 F_relu y in
  y <-- Conv2d.forward (cv3 self) hidden ;;
  let hidden := map4 F_relu y in
  y <-- Conv2d.forward (cv4 self) hidden ;;
  reshape (batch4 hidden) (map4 F_relu y).

End Encoder.

(** ** Concrete instances

    Models of the smallest sizes with all parameters zero, and inputs for
    them; the general statements below are exercised on these. *)

Module Sample.

Definition linear (i o : nat) : Linear.t :=
  Linear.mk i o (repeat (repeat 0 i) o) (repeat 0 o).

Definition gru (i h : nat) : GRUCell.t :=
  GRUCell.mk i h (repeat (repeat 0 i) (3 * h)) (repeat (repeat 0 h) (3 * h))
    (repeat 0 (3 * h)) (repeat 0 (3 * h)).

(** [RecurrentStateSpaceModel(S, A, H, hidden_dim=hid)], default floor and
    activation. *)
Definition rssm (S A H hid : nat) : RecurrentStateSpaceModel.t :=
  RecurrentStateSpaceModel.mk S A H
    (linear (S + A) hid) (linear H hid) (linear hid S) (linear hid S)
    (linear (H + 1024) hid) (linear hid S) (linear hid S)
    (gru hid H) (1 / 10) F_elu.

(** [ActionModel(S, H, A, hidden_dim=hid)], default floor and initial
    standard deviation. *)
Definition policy (S H A hid : nat) : ActionModel.t :=
  ActionModel.mk (linear (S + H) hid) (linear hid hid) (linear hid hid)
    (linear hid hid) (linear hid A) (linear hid A)
    F_elu (1 / 10000) (ln (exp 5 - 1)).

Definition zeros (b n : nat) : Tensor := mkTensor n (repeat (repeat 0 n) b).

(** A store holding state, action, deterministic state and embedding of a
    batch of [b] rows at references 0, 1, 2, 3. *)
Definition world (b S A H : nat) : World :=
  mkWorld [zeros b S; zeros b A; zeros b H; zeros b 1024] (fun _ => 0).

(** The same tensors in another store: other references, another generator
    state. *)
Definition other_world (b S A H : nat) : World :=
  mkWorld [zeros b 1024; zeros b H; zeros b A; zeros b S] (fun _ => 1).

(** State of width 1 and action of width 2, for a model built with state
    width 2 and action width 1. *)
Definition swapped_world : World :=
  mkWorld [zeros 1 1; zeros 1 2; zeros 1 1; zeros 1 1024] (fun _ => 0).

Definition conv (i o : nat) : Conv2d.t :=
  Conv2d.mk i o 4 2 (repeat (repeat (repeat (repeat 0 4) 4) i) o) (repeat 0 o).

Definition encoder : Encoder.t :=
  Encoder.mk (conv 3 32) (conv 32 64) (conv 64 128) (conv 128 256).

Definition frames (b : nat) : Tensor4 :=
  mkTensor4 3 64 64 (repeat (repeat (repeat (repeat 0 64) 64) 3) b).

End Sample.

(** ** class RewardModel and class ValueModel *)

(** Both classes are the same network: three hidden layers and a head of
    one output feature, on the concatenation of state and deterministic
    state. *)
Definition scalar_head (l1 l2 l3 l4 : Linear.t) (act : R -> R)
  (state det_state : Tensor) : Res Tensor :=
  (x <-- T.cat state det_state ;;
   y <-- Linear.forward l1 x ;;
   y <-- Linear.forward l2 (T.map act y) ;;
   y <-- Linear.forward l3 (T.map act y) ;;
   Linear.forward l4 (T.map act y))%res.

Module RewardModel.

Record t : Type := mk {
  fc1 : Linear.t;
  fc2 : Linear.t;
  fc3 : Linear.t;
  fc4 : Linear.t;
  act : R -> R
}.

Definition init (state_dim rnn_hidden_dim hidden_dim : nat) (self : t) : bool :=
  Linear.init (state_dim + rnn_hidden_dim) hidden_dim (fc1 self) &&
  Linear.init hidden_dim hidden_dim (fc2 self) &&
  Linear.init hidden_dim hidden_dim (fc3 self) &&
  Linear.init hidden_dim 1 (fc4 self).

Local Open Scope torch_scope.

Definition forward (self : t) (state rnn_hidden : ref) : M ref :=
  x <- torch_cat state rnn_hidden ;;
  y <- nn_Linear (fc1 self) x ;;
  hidden <- pointwise (act self) y ;;
  y <- nn_Linear (fc2 self) hidden ;;
  hidden <- pointwise (act self) y ;;
  y <- nn_Linear (fc3 self) hidden ;;
  hidden <- pointwise (act self) y ;;
  reward <- nn_Linear (fc4 self) hidden ;;
  ret reward.

End RewardModel.

Module ValueModel.

Record t : Type := mk {
  fc1 : Linear.t;
  fc2 : Linear.t;
  fc3 : Linear.t;
  fc4 : Linear.t;
  act : R -> R
}.

Definition init (state_dim rnn_hidden_dim hidden_dim : nat) (self : t) : bool :=
  Linear.init (state_dim + rnn_hidden_dim) hidden_dim (fc1 self) &&
  Linear.init hidden_dim hidden_dim (fc2 self) &&
  Linear.init hidden_dim hidden_dim (fc3 self) &&
  Linear.init hidden_dim 1 (fc4 self).

Local Open Scope torch_scope.

Definition forward (self : t) (state rnn_hidden : ref) : M ref :=
  x <- torch_cat state rnn_hidden ;;
  y <- nn_Linear (fc1 self) x ;;
  hidden <- pointwise (act self) y ;;
  y <- nn_Linear (fc2 self) hidden ;;
  hidden <- pointwise (act self) y ;;
  y <- nn_Linear (fc3 self) hidden ;;
  hidden <- pointwise (act self) y ;;
  state_value <- nn_Linear (fc4 self) hidden ;;
  ret state_value.

End ValueModel.

(** ** nn.ConvTranspose2d and class ObservationModel *)

(** [x.view(b, c, h, w)] of a 2-D tensor: the entries in row-major order,
    regrouped; the number of entries must be the same. *)
Definition view4 (b c h w : nat) (x : Tensor) : Res Tensor4 :=
  let numel := (batch x * width x)%nat in
  if (numel =? b * (c * (h * w)))%nat
  then Ok {| channels := c; height := h; extent := w;
             images := map (fun i => map (chunk w h) (chunk (h * w) c i))
                         (chunk (c * (h * w)) b (concat (rows x))) |}
  else Err (DimMismatch numel (b * (c * (h * w)))).

Module ConvTranspose2d.

(** Square kernel, no padding, no output padding, no dilation: the keyword
    arguments the decoder passes are [kernel_size] and [stride]. *)
Record t : Type := mk {
  in_channels : nat;
  out_channels : nat;
  kernel_size : nat;
  stride : nat;
  weight : list image;   (* in_channels x out_channels x kernel x kernel *)
  bias : list R          (* out_channels *)
}.

(** The parameter shapes [nn.ConvTranspose2d(i, o, kernel_size=k, stride=s)]
    creates. *)
Definition init (i o k s : nat) (c : t) : bool :=
  (in_channels c =? i)%nat && (out_channels c =? o)%nat &&
  (kernel_size c =? k)%nat && (stride c =? s)%nat &&
  (length (weight c) =? i)%nat && (length (bias c) =? o)%nat &&
  forallb (image_shape o k k) (weight c).

(** Output extent of an input extent [n >= 1]. *)
Definition out_extent (k s n : nat) : nat := ((n - 1) * s + k)%nat.

(** The entry (u, v) of a kernel, and 0 outside of it. *)
Definition tap (kernel : plane) (u v : nat) : R := nth v (nth u kernel []) 0.

(** What the input plane [p], through [kernel], adds to the output entry
    (y, x): input entry (i, j) reaches it through the kernel entry
    (y - i * s, x - j * s), when that is inside the kernel. *)
Definition scatter (k s y x : nat) (kernel p : plane) : R :=
  sum_list
    (map (fun i =>
            sum_list
              (map (fun j =>
                      if ((i * s <=? y) && (y - i * s <? k) &&
                          (j * s <=? x) && (x - j * s <? k))%nat
                      then nth j (nth i p []) 0
                           * tap kernel (y - i * s) (x - j * s)
                      else 0)
                 (seq 0 (length (nth i p [])))))
       (seq 0 (length p))).

(** Output channel [o] of one image: the sum over the input channels. *)
Definition deconv_image (c : t) (oh ow : nat) (input : image) : image :=
  map (fun ob =>
         map (fun y =>
                map (fun x =>
                       sum_list
                         (zip_with
                            (fun filters p =>
                               scatter (kernel_size c) (stride c) y x
                                 (nth (fst ob) filters []) p)
                            (weight c) input)
                       + snd ob)
                  (seq 0 ow))
           (seq 0 oh))
    (combine (seq 0 (out_channels c)) (bias c)).

Definition forward (c : t) (x : Tensor4) : Res Tensor4 :=
  if negb (channels x =? in_channels c)%nat
  then Err (DimMismatch (in_channels c) (channels x))
  else if (height x =? 0)%nat
  then Err (DimMismatch 1 (height x))
  else if (extent x =? 0)%nat
  then Err (DimMismatch 1 (extent x))
  else
    let oh := out_extent (kernel_size c) (stride c) (height x) in
    let ow := out_extent (kernel_size c) (stride c) (extent x) in
    Ok {| channels := out_channels c; height := oh; extent := ow;
          images := map (deconv_image c oh ow) (images x) |}.

End ConvTranspose2d.

Module ObservationModel.

Record t : Type := mk {
  fc : Linear.t;
  dc1 : ConvTranspose2d.t;
  dc2 : ConvTranspose2d.t;
  dc3 : ConvTranspose2d.t;
  dc4 : ConvTranspose2d.t
}.

Definition init (state_dim rnn_hidden_dim : nat) (self : t) : bool :=
  Linear.init (state_dim + rnn_hidden_dim) 1024 (fc self) &&
  ConvTranspose2d.init 1024 128 5 2 (dc1 self) &&
  ConvTranspose2d.init 128 64 5 2 (dc2 self) &&
  ConvTranspose2d.init 64 32 6 2 (dc3 self) &&
  ConvTranspose2d.init 32 3 6 2 (dc4 self).

Local Open Scope res_scope.

Definition forward (self : t) (state rnn_hidden : Tensor) : Res Tensor4 :=
  x <-- T.cat state rnn_hidden ;;
  hidden <-- Linear.forward (fc self) x ;;
  hidden <-- view4 (batch hidden) 1024 1 1 hidden ;;
  y <-- ConvTranspose2d.forward (dc1 self) hidden ;;
  let hidden := map4 F_relu y in
  y <-- ConvTranspose2d.forward (dc2 self) hidden ;;
  let hidden := map4 F_relu y in
  y <-- ConvTranspose2d.forward (dc3 self) hidden ;;
  let hidden := map4 F_relu y in
  obs <-- ConvTranspose2d.forward (dc4 self) hidden ;;
  Ok obs.

End ObservationModel.

(** Image [i] of a batch of images as a batch of its own, of one image. *)
Definition image_of (i : nat) (x : Tensor4) : Tensor4 :=
  {| channels := channels x; height := height x; extent := extent x;
     images := [nth i (images x) []] |}.

(** ** More concrete instances *)

Module Fixture.

Definition reward (S H hid : nat) : RewardModel.t :=
  RewardModel.mk (Sample.linear (S + H) hid) (Sample.linear hid hid)
    (Sample.linear hid hid) (Sample.linear hid 1) F_elu.

Definition value (S H hid : nat) : ValueModel.t :=
  ValueModel.mk (Sample.linear (S + H) hid) (Sample.linear hid hid)
    (Sample.linear hid hid) (Sample.linear hid 1) F_elu.

Definition deconv (i o k : nat) : ConvTranspose2d.t :=
  ConvTranspose2d.mk i o k 2
    (repeat (repeat (repeat (repeat 0 k) k) o) i) (repeat 0 o).

Definition decoder (S H : nat) : ObservationModel.t :=
  ObservationModel.mk (Sample.linear (S + H) 1024)
    (deconv 1024 128 5) (deconv 128 64 5) (deconv 64 32 6) (deconv 32 3 6).

End Fixture.

(** * Properties *)

(** ** Lists *)

Section ZipWith.

Context {A B C : Type}.
Variable f : A -> B -> C.

Lemma length_zip_with (u : list A) (v : list B) :
  length (zip_with f u v) = Nat.min (length u) (length v).
Proof.
  revert v; induction u as [|a u IH]; intros [|b v]; simpl; auto.
Qed.

Lemma length_zip_with_eq n (u : list A) (v : list B) :
  length u = n -> length v = n -> length (zip_with f u v) = n.
Proof. intros; rewrite length_zip_with; lia. Qed.


Lemma Forall_zip_with (P : C -> Prop) (u : list A) (v : list B) :
  (forall a b, In a u -> In b v -> P (f a b)) ->
  Forall P (zip_with f u v).
Proof.
  revert v; induction u as [|a u IH]; intros [|b v] H; simpl; auto.
  constructor.
  - apply H; simpl; auto.
  - apply IH; intros; apply H; simpl; auto.
Qed.

End ZipWith.

Lemma forallb_length_Forall {X} (n : nat) (l : list (list X)) :
  forallb (fun r => (length r =? n)%nat) l = true <->
  Forall (fun r => length r = n) l.
Proof.
  rewrite forallb_forall, Forall_forall.
  split; intros H r Hr; [apply Nat.eqb_eq | apply Nat.eqb_eq]; auto.
Qed.

(** ** Shapes *)

Lemma has_shape_iff t b w :
  has_shape t b w = true <->
  batch t = b /\ width t = w /\ Forall (fun r => length r = w) (rows t).
Proof.
  unfold has_shape.
  rewrite !andb_true_iff, !Nat.eqb_eq, forallb_length_Forall. tauto.
Qed.

Lemma length_affine W b x n :
  length W = n -> length b = n -> length (affine W b x) = n.
Proof. intros; unfold affine; now apply length_zip_with_eq. Qed.

Lemma cat_shape a c b wa wc :
  has_shape a b wa = true -> has_shape c b wc = true ->
  exists t, T.cat a c = Ok t /\ has_shape t b (wa + wc) = true.
Proof.
  rewrite !has_shape_iff. intros (Ha & Hwa & Hra) (Hc & Hwc & Hrc).
  unfold T.cat. rewrite Ha, Hc, Nat.eqb_refl.
  eexists; split; [reflexivity|].
  apply has_shape_iff; unfold batch; simpl.
  split; [|split].
  - apply length_zip_with_eq; assumption.
  - congruence.
  - apply Forall_zip_with. intros r r' Hr Hr'.
    rewrite Forall_forall in Hra, Hrc.
    rewrite length_app, (Hra _ Hr), (Hrc _ Hr'). reflexivity.
Qed.

Lemma map_shape f x b w :
  has_shape x b w = true -> has_shape (T.map f x) b w = true.
Proof.
  rewrite !has_shape_iff. intros (Hb & Hw & Hr).
  unfold batch, T.map; simpl. rewrite length_map.
  repeat split; auto.
  rewrite Forall_map. eapply Forall_impl; [|exact Hr].
  intros r Hlen; simpl. now rewrite length_map.
Qed.

Lemma Linear_init_iff i o l :
  Linear.init i o l = true <->
  Linear.in_features l = i /\ Linear.out_features l = o /\
  length (Linear.weight l) = o /\ length (Linear.bias l) = o /\
  Forall (fun r => length r = i) (Linear.weight l).
Proof.
  unfold Linear.init.
  rewrite !andb_true_iff, !Nat.eqb_eq, forallb_length_Forall. tauto.
Qed.

Lemma linear_shape i o l x b :
  Linear.init i o l = true -> has_shape x b i = true ->
  exists y, Linear.forward l x = Ok y /\ has_shape y b o = true.
Proof.
  rewrite Linear_init_iff, has_shape_iff.
  intros (Hi & Ho & HW & Hb & _) (Hx & Hw & _).
  unfold Linear.forward. rewrite Hw, Hi, Nat.eqb_refl.
  eexists; split; [reflexivity|].
  apply has_shape_iff; unfold batch; simpl. rewrite length_map.
  repeat split; auto.
  rewrite Forall_map, Forall_forall. intros r _.
  now apply length_affine.
Qed.

Lemma GRUCell_init_iff i h c :
  GRUCell.init i h c = true <->
  GRUCell.input_size c = i /\ GRUCell.hidden_size c = h /\
  length (GRUCell.weight_ih c) = (3 * h)%nat /\
  length (GRUCell.bias_ih c) = (3 * h)%nat /\
  length (GRUCell.weight_hh c) = (3 * h)%nat /\
  length (GRUCell.bias_hh c) = (3 * h)%nat /\
  Forall (fun r => length r = i) (GRUCell.weight_ih c) /\
  Forall (fun r => length r = h) (GRUCell.weight_hh c).
Proof.
  unfold GRUCell.init.
  rewrite !andb_true_iff, !Nat.eqb_eq, !forallb_length_Forall. tauto.
Qed.

Lemma length_cell i h c x hx :
  GRUCell.init i h c = true -> length hx = h ->
  length (GRUCell.cell c x hx) = h.
Proof.
  rewrite GRUCell_init_iff.
  intros (_ & Hh & Hwi & Hbi & Hwh & Hbh & _) Hx.
  unfold GRUCell.cell. rewrite Hh.
  assert (Hgi : length (affine (GRUCell.weight_ih c) (GRUCell.bias_ih c) x)
                = (3 * h)%nat) by now apply length_affine.
  assert (Hgh : length (affine (GRUCell.weight_hh c) (GRUCell.bias_hh c) hx)
                = (3 * h)%nat) by now apply length_affine.
  repeat (rewrite ?length_zip_with, ?length_combine, ?length_firstn,
           ?length_skipn, ?Hgi, ?Hgh).
  lia.
Qed.

Lemma gru_shape i h c x hx b :
  GRUCell.init i h c = true ->
  has_shape x b i = true -> has_shape hx b h = true ->
  exists y, GRUCell.forward c x hx = Ok y /\ has_shape y b h = true.
Proof.
  intros Hc Hx Hh. pose proof Hc as Hc'.
  rewrite GRUCell_init_iff in Hc'. destruct Hc' as (Hi & Hs & _).
  rewrite has_shape_iff in Hx, Hh.
  destruct Hx as (Hbx & Hwx & _), Hh as (Hbh & Hwh & Hrh).
  unfold GRUCell.forward.
  rewrite Hwx, Hi, Hbx, Hbh, Hwh, Hs, !Nat.eqb_refl; simpl.
  eexists; split; [reflexivity|].
  apply has_shape_iff; unfold batch; simpl.
  split; [|split; [reflexivity|]].
  - now apply length_zip_with_eq.
  - apply Forall_zip_with. intros r r' _ Hr'.
    rewrite Forall_forall in Hrh.
    eapply length_cell; eauto.
Qed.

(** ** Shapes of the RSSM operations *)

Section RSSMShapes.

Import RecurrentStateSpaceModel.

Variables (S A H hid : nat) (self : t).
Hypothesis Hinit : init S A H hid self = true.

Lemma init_parts :
  Linear.init (S + A) hid (fc_state_action self) = true /\
  Linear.init H hid (fc_rnn_hidden self) = true /\
  Linear.init hid S (fc_state_mean_prior self) = true /\
  Linear.init hid S (fc_state_stddev_prior self) = true /\
  Linear.init (H + 1024) hid (fc_rnn_hidden_embedded_obs self) = true /\
  Linear.init hid S (fc_state_mean_posterior self) = true /\
  Linear.init hid S (fc_state_stddev_posterior self) = true /\
  GRUCell.init hid H (rnn self) = true.
Proof.
  unfold init in Hinit. rewrite !andb_true_iff in Hinit. tauto.
Qed.

Lemma spec_prior_shape ts ta th b :
  has_shape ts b S = true -> has_shape ta b A = true ->
  has_shape th b H = true ->
  exists m sd h',
    Spec.prior self ts ta th = Ok (m, sd, h') /\
    has_shape m b S = true /\ has_shape sd b S = true /\
    has_shape h' b H = true.
Proof.
  intros Hs Ha Hh.
  destruct init_parts as (L1 & L2 & L3 & L4 & _ & _ & _ & G).
  unfold Spec.prior.
  destruct (cat_shape _ _ _ _ _ Hs Ha) as (x & -> & Hx); simpl.
  destruct (linear_shape _ _ _ _ _ L1 Hx) as (y & -> & Hy); simpl.
  destruct (gru_shape _ _ _ _ _ _ G (map_shape (act self) _ _ _ Hy) Hh)
    as (h' & -> & Hh'); simpl.
  destruct (linear_shape _ _ _ _ _ L2 Hh') as (y2 & -> & Hy2); simpl.
  pose proof (map_shape (act self) _ _ _ Hy2) as Hh2.
  destruct (linear_shape _ _ _ _ _ L3 Hh2) as (m & -> & Hm); simpl.
  destruct (linear_shape _ _ _ _ _ L4 Hh2) as (raw & -> & Hraw); simpl.
  exists m, (Spec.stabilize (_min_stddev self) raw), h'.
  repeat split; auto. now apply map_shape.
Qed.

Lemma spec_posterior_shape th te b :
  has_shape th b H = true -> has_shape te b 1024 = true ->
  exists m sd,
    Spec.posterior self th te = Ok (m, sd) /\
    has_shape m b S = true /\ has_shape sd b S = true.
Proof.
  intros Hh He.
  destruct init_parts as (_ & _ & _ & _ & L5 & L6 & L7 & _).
  unfold Spec.posterior.
  destruct (cat_shape _ _ _ _ _ Hh He) as (x & -> & Hx); simpl.
  destruct (linear_shape _ _ _ _ _ L5 Hx) as (y & -> & Hy); simpl.
  pose proof (map_shape (act self) _ _ _ Hy) as Hh2.
  destruct (linear_shape _ _ _ _ _ L6 Hh2) as (m & -> & Hm); simpl.
  destruct (linear_shape _ _ _ _ _ L7 Hh2) as (raw & -> & Hraw); simpl.
  exists m, (Spec.stabilize (_min_stddev self) raw).
  repeat split; auto. now apply map_shape.
Qed.

End RSSMShapes.

(** ** The store *)

Lemma points_to_alloc w r t t' :
  points_to w r t -> points_to (alloc t' w) r t.
Proof.
  unfold points_to, alloc; simpl. intros H.
  rewrite nth_error_app1; auto.
  apply nth_error_Some. congruence.
Qed.

Lemma points_to_new w t : points_to (alloc t w) (length (heap w)) t.
Proof.
  unfold points_to, alloc; simpl.
  rewrite nth_error_app2, Nat.sub_diag; auto.
Qed.

Lemma length_heap_alloc w t :
  length (heap (alloc t w)) = Datatypes.S (length (heap w)).
Proof. unfold alloc; simpl. rewrite length_app; simpl. lia. Qed.

Lemma extends_refl w : extends w w.
Proof. split; auto. exists []. now rewrite app_nil_r. Qed.

Lemma extends_trans w1 w2 w3 :
  extends w1 w2 -> extends w2 w3 -> extends w1 w3.
Proof.
  intros ((m1 & H1) & G1) ((m2 & H2) & G2). split; [|congruence].
  exists (m1 ++ m2). now rewrite H2, H1, app_assoc.
Qed.

Lemma extends_alloc w w' t : extends w w' -> extends w (alloc t w').
Proof.
  intros H. eapply extends_trans; [exact H|].
  split; [now exists [t] | reflexivity].
Qed.

Lemma extends_points_to w w' r t :
  extends w w' -> points_to w r t -> points_to w' r t.
Proof.
  intros ((m & Hm) & _) H. unfold points_to in *. rewrite Hm.
  rewrite nth_error_app1; auto. apply nth_error_Some. congruence.
Qed.

Lemma extends_length w w' :
  extends w w' -> (length (heap w) <= length (heap w'))%nat.
Proof. intros ((m & Hm) & _). rewrite Hm, length_app. lia. Qed.

(** Running an operation whose argument is allocated. *)
Lemma bind_op1 {X} f x tx (k : ref -> M X) w :
  points_to w x tx ->
  bind (op1 f x) k w =
  match f tx with
  | Ok t => k (length (heap w)) (alloc t w)
  | Err e => Err e
  end.
Proof.
  unfold points_to, op1, bind, load, lift, new. intros ->.
  destruct (f tx); reflexivity.
Qed.

Lemma bind_op2 {X} f x y tx ty (k : ref -> M X) w :
  points_to w x tx -> points_to w y ty ->
  bind (op2 f x y) k w =
  match f tx ty with
  | Ok t => k (length (heap w)) (alloc t w)
  | Err e => Err e
  end.
Proof.
  unfold points_to, op2, bind, load, lift, new. intros -> ->.
  destruct (f tx ty); reflexivity.
Qed.

Lemma run_op1 f x tx w :
  points_to w x tx ->
  op1 f x w =
  match f tx with
  | Ok t => Ok (length (heap w), alloc t w)
  | Err e => Err e
  end.
Proof.
  unfold points_to, op1, bind, load, lift, new. intros ->.
  destruct (f tx); reflexivity.
Qed.

Lemma run_op2 f x y tx ty w :
  points_to w x tx -> points_to w y ty ->
  op2 f x y w =
  match f tx ty with
  | Ok t => Ok (length (heap w), alloc t w)
  | Err e => Err e
  end.
Proof.
  unfold points_to, op2, bind, load, lift, new. intros -> ->.
  destruct (f tx ty); reflexivity.
Qed.

Lemma map_map_tensor f g x : T.map g (T.map f x) = T.map (fun v => g (f v)) x.
Proof.
  unfold T.map; simpl. f_equal.
  rewrite map_map. apply map_ext. intros r. apply map_map.
Qed.

Create HintDb store.
#[local] Hint Resolve points_to_alloc points_to_new extends_refl
  extends_alloc : store.

Ltac expose_ops :=
  unfold torch_tanh, add_scalar, mul_scalar, div_scalar, pointwise,
    torch_cat, torch_add, torch_mul, nn_Linear, nn_GRUCell.

(** One torch call on allocated arguments, then the case of its result. *)
Ltac run_call :=
  first [ erewrite bind_op1 by eauto 20 with store
        | erewrite bind_op2 by eauto 20 with store
        | erewrite run_op1 by eauto 20 with store
        | erewrite run_op2 by eauto 20 with store ];
  cbv beta iota;
  try match goal with
      | |- context [match ?r with Ok _ => _ | Err _ => _ end] =>
          destruct r; cbn [res_bind]; [|reflexivity]
      end.

Ltac solve_fresh :=
  unfold fresh; cbn [loc scale]; rewrite ?length_heap_alloc; lia.

(** ** The classes compute the operations of the spec *)

Section RSSMRuns.

Import RecurrentStateSpaceModel.

Variable self : t.

(** [prior] on allocated arguments fails exactly when [Spec.prior] fails on
    their values; otherwise it returns fresh references to the values of
    [Spec.prior], in a store that extends the given one. *)
Lemma prior_run w s a h ts ta th :
  points_to w s ts -> points_to w a ta -> points_to w h th ->
  match Spec.prior self ts ta th with
  | Err e => prior self s a h w = Err e
  | Ok (m, sd, h') =>
      exists d r w',
        prior self s a h w = Ok ((d, r), w') /\
        extends w w' /\
        fresh w (loc d) /\ fresh w (scale d) /\ fresh w r /\
        points_to w' (loc d) m /\ points_to w' (scale d) sd /\
        points_to w' r h'
  end.
Proof.
  intros Hs Ha Hh.
  unfold prior, Spec.prior, Spec.stabilize. expose_ops.
  do 8 run_call. do 2 run_call.
  rewrite map_map_tensor.
  eexists _, _, _. split; [reflexivity|].
  split; [eauto 20 with store|].
  repeat split; try solve_fresh; eauto 20 with store.
Qed.

Lemma posterior_run w h e th te :
  points_to w h th -> points_to w e te ->
  match Spec.posterior self th te with
  | Err err => posterior self h e w = Err err
  | Ok (m, sd) =>
      exists d w',
        posterior self h e w = Ok (d, w') /\
        extends w w' /\
        fresh w (loc d) /\ fresh w (scale d) /\
        points_to w' (loc d) m /\ points_to w' (scale d) sd
  end.
Proof.
  intros Hh He.
  unfold posterior, Spec.posterior, Spec.stabilize. expose_ops.
  do 5 run_call. do 2 run_call.
  rewrite map_map_tensor.
  eexists _, _. split; [reflexivity|].
  split; [eauto 20 with store|].
  repeat split; try solve_fresh; eauto 20 with store.
Qed.

End RSSMRuns.

Section StepRun.

Import RecurrentStateSpaceModel.

Variable self : t.

Lemma forward_unfold s a h e w :
  forward self s a h e w =
  match prior self s a h w with
  | Err err => Err err
  | Ok ((d_prior, h'), w1) =>
      match posterior self h' e w1 with
      | Err err => Err err
      | Ok (d_post, w2) => Ok ((d_prior, d_post, h'), w2)
      end
  end.
Proof.
  unfold forward, bind, ret.
  destruct (prior self s a h w) as [[[d r] w1]|]; [|reflexivity].
  destruct (posterior self r e w1) as [[dq w2]|]; reflexivity.
Qed.

Lemma forward_run w s a h e ts ta th te :
  points_to w s ts -> points_to w a ta -> points_to w h th ->
  points_to w e te ->
  match Spec.step self ts ta th te with
  | Err err => forward self s a h e w = Err err
  | Ok ((m, sd), (pm, psd), h') =>
      exists dp dq r w',
        forward self s a h e w = Ok ((dp, dq, r), w') /\
        extends w w' /\
        fresh w (loc dp) /\ fresh w (scale dp) /\
        fresh w (loc dq) /\ fresh w (scale dq) /\ fresh w r /\
        points_to w' (loc dp) m /\ points_to w' (scale dp) sd /\
        points_to w' (loc dq) pm /\ points_to w' (scale dq) psd /\
        points_to w' r h'
  end.
Proof.
  intros Hs Ha Hh He.
  rewrite forward_unfold. unfold Spec.step.
  pose proof (prior_run self w s a h ts ta th Hs Ha Hh) as Hp.
  destruct (Spec.prior self ts ta th) as [[[m sd] h']|err]; cbn [res_bind];
    [|now rewrite Hp].
  destruct Hp as (dp & r & w1 & -> & Hext & F1 & F2 & F3 & P1 & P2 & P3).
  pose proof (posterior_run self w1 r e h' te P3
                (extends_points_to _ _ _ _ Hext He)) as Hq.
  destruct (Spec.posterior self h' te) as [[pm psd]|err]; cbn [res_bind];
    [|now rewrite Hq].
  destruct Hq as (dq & w2 & -> & Hext2 & G1 & G2 & Q1 & Q2).
  exists dp, dq, r, w2. split; [reflexivity|].
  pose proof (extends_length _ _ Hext) as Hlen.
  split; [eapply extends_trans; eassumption|].
  unfold fresh in *.
  repeat match goal with |- _ /\ _ => split end;
    eauto using extends_points_to; lia.
Qed.

End StepRun.

(** ** Scalar bounds *)

Lemma F_softplus_pos x : 0 < F_softplus x.
Proof.
  unfold F_softplus. destruct (Rlt_dec 20 x) as [Hx|Hx]; [lra|].
  rewrite <- ln_1. apply ln_increasing; [lra|].
  pose proof (exp_pos x). lra.
Qed.






(** ** Rows of a batch *)

Lemma nth_map_row {X Y} (f : list X -> list Y) i (l : list (list X)) :
  (i < length l)%nat -> nth i (map f l) [] = f (nth i l []).
Proof.
  intros Hi. rewrite (nth_indep _ [] (f [])) by now rewrite length_map.
  apply map_nth.
Qed.








Tactic Notation "next_result" hyp(H) ident(x) ident(E) :=
  match type of H with
  | res_bind ?r _ = Ok _ =>
      destruct r as [x|] eqn:E; cbn [res_bind] in H; [|discriminate]
  end.



Lemma prior_run_ok self w s a h ts ta th m sd h' :
  points_to w s ts -> points_to w a ta -> points_to w h th ->
  Spec.prior self ts ta th = Ok (m, sd, h') ->
  exists d r w',
    RecurrentStateSpaceModel.prior self s a h w = Ok ((d, r), w') /\
    extends w w' /\
    fresh w (loc d) /\ fresh w (scale d) /\ fresh w r /\
    points_to w' (loc d) m /\ points_to w' (scale d) sd /\
    points_to w' r h'.
Proof.
  intros Hs Ha Hh E.
  pose proof (prior_run self w s a h ts ta th Hs Ha Hh) as Hrun.
  now rewrite E in Hrun.
Qed.

Lemma posterior_run_ok self w h e th te m sd :
  points_to w h th -> points_to w e te ->
  Spec.posterior self th te = Ok (m, sd) ->
  exists d w',
    RecurrentStateSpaceModel.posterior self h e w = Ok (d, w') /\
    extends w w' /\
    fresh w (loc d) /\ fresh w (scale d) /\
    points_to w' (loc d) m /\ points_to w' (scale d) sd.
Proof.
  intros Hh He E.
  pose proof (posterior_run self w h e th te Hh He) as Hrun.
  now rewrite E in Hrun.
Qed.

(** ** What [prior] accepts and what it rejects *)

Lemma cat_accepts a c b :
  batch a = b -> batch c = b ->
  exists t, T.cat a c = Ok t /\ batch t = b /\
            width t = (width a + width c)%nat.
Proof.
  intros Ha Hc. unfold T.cat. rewrite Ha, Hc, Nat.eqb_refl.
  eexists; split; [reflexivity|]. unfold batch in *; simpl.
  split; [|reflexivity]. now apply length_zip_with_eq.
Qed.

Lemma linear_accepts i o l x b :
  Linear.init i o l = true -> batch x = b -> width x = i ->
  exists y, Linear.forward l x = Ok y /\ has_shape y b o = true.
Proof.
  rewrite Linear_init_iff.
  intros (Hi & Ho & HW & Hb & _) Hx Hw.
  unfold Linear.forward. rewrite Hw, Hi, Nat.eqb_refl.
  eexists; split; [reflexivity|].
  apply has_shape_iff; unfold batch in *; simpl. rewrite length_map.
  repeat split; auto.
  rewrite Forall_map, Forall_forall. intros r _.
  now apply length_affine.
Qed.

Lemma linear_rejects i o l x :
  Linear.init i o l = true -> width x <> i ->
  Linear.forward l x = Err (DimMismatch i (width x)).
Proof.
  rewrite Linear_init_iff. intros (Hi & _) Hw.
  unfold Linear.forward. rewrite Hi.
  destruct (Nat.eqb_spec (width x) i); [contradiction | reflexivity].
Qed.

Lemma gru_rejects_hidden i h c x hx :
  GRUCell.init i h c = true ->
  width x = i -> batch x = batch hx -> width hx <> h ->
  GRUCell.forward c x hx = Err (DimMismatch h (width hx)).
Proof.
  rewrite GRUCell_init_iff. intros (Hi & Hh & _) Hw Hb Hwh.
  unfold GRUCell.forward. rewrite Hi, Hh, Hw, Hb, !Nat.eqb_refl; simpl.
  destruct (Nat.eqb_spec (width hx) h); [contradiction | reflexivity].
Qed.

Section PriorAccepts.

Import RecurrentStateSpaceModel.

Variables (S A H hid : nat) (self : t).
Hypothesis Hinit : init S A H hid self = true.

Lemma spec_prior_accepts ts ta th b :
  batch ts = b -> batch ta = b ->
  (width ts + width ta = S + A)%nat -> has_shape th b H = true ->
  exists m sd h',
    Spec.prior self ts ta th = Ok (m, sd, h') /\
    has_shape m b S = true /\ has_shape sd b S = true /\
    has_shape h' b H = true.
Proof.
  intros Hs Ha Hw Hh.
  destruct (init_parts S A H hid self Hinit)
    as (L1 & L2 & L3 & L4 & _ & _ & _ & G).
  unfold Spec.prior.
  destruct (cat_accepts _ _ _ Hs Ha) as (x & -> & Hbx & Hwx); simpl.
  rewrite Hw in Hwx.
  destruct (linear_accepts _ _ _ _ _ L1 Hbx Hwx) as (y & -> & Hy); simpl.
  destruct (gru_shape _ _ _ _ _ _ G (map_shape (act self) _ _ _ Hy) Hh)
    as (h' & -> & Hh'); simpl.
  destruct (linear_shape _ _ _ _ _ L2 Hh') as (y2 & -> & Hy2); simpl.
  pose proof (map_shape (act self) _ _ _ Hy2) as Hh2.
  destruct (linear_shape _ _ _ _ _ L3 Hh2) as (m & -> & Hm); simpl.
  destruct (linear_shape _ _ _ _ _ L4 Hh2) as (raw & -> & Hraw); simpl.
  exists m, (Spec.stabilize (_min_stddev self) raw), h'.
  repeat split; auto. now apply map_shape.
Qed.

Lemma spec_prior_rejects_features ts ta th :
  batch ts = batch ta ->
  (width ts + width ta <> S + A)%nat ->
  Spec.prior self ts ta th
  = Err (DimMismatch (S + A) (width ts + width ta)).
Proof.
  intros Hb Hw.
  destruct (init_parts S A H hid self Hinit) as (L1 & _).
  unfold Spec.prior.
  destruct (cat_accepts ts ta _ eq_refl (eq_sym Hb)) as (x & -> & _ & Hwx).
  cbn [res_bind]. rewrite <- Hwx in *.
  now rewrite (linear_rejects _ _ _ _ L1 Hw).
Qed.

Lemma spec_prior_rejects_hidden ts ta th :
  batch ts = batch ta -> batch ts = batch th ->
  (width ts + width ta = S + A)%nat -> width th <> H ->
  Spec.prior self ts ta th = Err (DimMismatch H (width th)).
Proof.
  intros Hb Hbh Hw Hwh.
  destruct (init_parts S A H hid self Hinit) as (L1 & _ & _ & _ & _ & _ & _ & G).
  unfold Spec.prior.
  destruct (cat_accepts ts ta _ eq_refl (eq_sym Hb)) as (x & -> & Hbx & Hwx).
  cbn [res_bind]. rewrite Hw in Hwx.
  destruct (linear_accepts _ _ _ _ _ L1 Hbx Hwx) as (y & -> & Hy).
  cbn [res_bind].
  pose proof (map_shape (act self) _ _ _ Hy) as Hy'.
  apply has_shape_iff in Hy'. destruct Hy' as (By & Wy & _).
  rewrite (gru_rejects_hidden hid H (rnn self) _ th G Wy); auto.
  congruence.
Qed.

End PriorAccepts.

(** Evaluation of a run on concrete tensors: the structure of the run is
    computed, the real-number entries are left as they are. *)
Ltac evaluate :=
  cbv -[Rplus Rmult Rminus Rdiv Ropp Rinv exp ln tanh
        F_elu F_relu F_softplus sigmoid].

Tactic Notation "evaluate" "in" hyp(H) :=
  cbv -[Rplus Rmult Rminus Rdiv Ropp Rinv exp ln tanh
        F_elu F_relu F_softplus sigmoid] in H.

(** ** The action model *)

Lemma points_to_advance n w r t : points_to w r t -> points_to (advance n w) r t.
Proof. exact (fun H => H). Qed.

Lemma bind_standard_normal {X} b n (k : ref -> M X) w :
  bind (standard_normal b n) k w =
  k (length (heap w)) (advance (b * n) (alloc (draw b n (gen w)) w)).
Proof. reflexivity. Qed.

Lemma bind_ok {X Y} (c : M X) (k : X -> M Y) w a w' :
  c w = Ok (a, w') -> bind c k w = k a w'.
Proof. unfold bind. now intros ->. Qed.

Lemma bind_err {X Y} (c : M X) (k : X -> M Y) w e :
  c w = Err e -> bind c k w = Err e.
Proof. unfold bind. now intros ->. Qed.

Lemma bind_assoc {X Y Z} (c : M X) (k1 : X -> M Y) (k2 : Y -> M Z) w :
  bind (bind c k1) k2 w = bind c (fun x => bind (k1 x) k2) w.
Proof. unfold bind. destruct (c w) as [[a w']|]; reflexivity. Qed.

Lemma bind_load {X} r t (k : Tensor -> M X) w :
  points_to w r t -> bind (load r) k w = k t w.
Proof. unfold points_to, bind, load. now intros ->. Qed.

#[local] Hint Resolve points_to_advance : store.

Section ActionRuns.

Import ActionModel.

Variable self : t.

Lemma distribution_run w s h ts th :
  points_to w s ts -> points_to w h th ->
  match Spec.action_distribution self ts th with
  | Err err => distribution self s h w = Err err
  | Ok (mean, sd) =>
      exists d w',
        distribution self s h w = Ok (d, w') /\
        extends w w' /\
        fresh w (loc d) /\ fresh w (scale d) /\
        points_to w' (loc d) mean /\ points_to w' (scale d) sd
  end.
Proof.
  intros Ps Ph.
  unfold distribution, Spec.action_distribution, Spec.action_hidden.
  expose_ops.
  do 9 run_call. cbn [res_bind].
  do 8 run_call.
  rewrite !map_map_tensor.
  eexists _, _. split; [reflexivity|].
  split; [eauto 30 with store|].
  repeat split; try solve_fresh; eauto 30 with store.
Qed.

(** Evaluation mode. *)
Lemma forward_eval_run w s h ts th :
  points_to w s ts -> points_to w h th ->
  match Spec.mode_action self ts th with
  | Err err => forward self s h false w = Err err
  | Ok a =>
      exists r w',
        forward self s h false w = Ok (r, w') /\
        extends w w' /\ fresh w r /\ points_to w' r a
  end.
Proof.
  intros Ps Ph.
  pose proof (distribution_run w s h ts th Ps Ph) as Hd.
  unfold forward, Spec.mode_action.
  destruct (Spec.action_distribution self ts th) as [[mean sd]|err];
    cbn [res_bind]; [|now apply bind_err].
  destruct Hd as (d & w1 & Hd & Hext & F1 & _ & Pm & _).
  rewrite (bind_ok _ _ _ _ _ Hd).
  unfold torch_tanh, pointwise.
  erewrite run_op1 by eassumption.
  eexists _, _. split; [reflexivity|].
  pose proof (extends_length _ _ Hext).
  split; [auto with store|]. split; [unfold fresh; lia|].
  cbn [fst]. auto with store.
Qed.

(** The sampling branch from the distribution on. *)
Lemma rsample_tanh_run w d mean sd :
  points_to w (loc d) mean -> points_to w (scale d) sd ->
  bind (rsample d) (fun sample => torch_tanh sample) w =
  let eps := draw (batch mean) (width mean) (gen w) in
  let w1 := advance (batch mean * width mean) (alloc eps w) in
  match T.map2 Rmult eps sd with
  | Err err => Err err
  | Ok noise =>
      match T.map2 Rplus mean noise with
      | Err err => Err err
      | Ok sample =>
          Ok (length (heap (alloc sample (alloc noise w1))),
              alloc (T.map tanh sample) (alloc sample (alloc noise w1)))
      end
  end.
Proof.
  intros Pm Psd. unfold rsample.
  rewrite !bind_assoc, (bind_load _ _ _ _ Pm).
  rewrite bind_assoc, bind_standard_normal.
  rewrite bind_assoc. expose_ops.
  erewrite bind_op2 by eauto 10 with store.
  cbv zeta.
  destruct (T.map2 Rmult _ sd) as [noise|err]; [|reflexivity].
  erewrite bind_op2 by eauto 10 with store.
  destruct (T.map2 Rplus mean noise) as [sample|err]; [|reflexivity].
  erewrite run_op1 by eauto 10 with store.
  reflexivity.
Qed.

(** Training mode: the heap is extended and the generator has advanced by
    the number of entries of the action. *)
Lemma forward_train_run w s h ts th :
  points_to w s ts -> points_to w h th ->
  match Spec.action_distribution self ts th with
  | Err err => forward self s h true w = Err err
  | Ok (mean, sd) =>
      match Spec.sample_action self ts th (gen w) with
      | Err err => forward self s h true w = Err err
      | Ok a =>
          exists r w',
            forward self s h true w = Ok (r, w') /\
            (exists more, heap w' = heap w ++ more) /\
            gen w' = (fun k => gen w (batch mean * width mean + k)%nat) /\
            fresh w r /\ points_to w' r a
      end
  end.
Proof.
  intros Ps Ph.
  pose proof (distribution_run w s h ts th Ps Ph) as Hd.
  unfold forward, Spec.sample_action.
  destruct (Spec.action_distribution self ts th) as [[mean sd]|err];
    cbn [res_bind fst snd]; [|now apply bind_err].
  destruct Hd as (d & w1 & Hd & ((more & Hheap) & Hgen) & F1 & _ & Pm & Psd).
  rewrite (bind_ok _ _ _ _ _ Hd). cbv beta iota.
  rewrite (rsample_tanh_run w1 d mean sd Pm Psd).
  cbv zeta. rewrite Hgen.
  destruct (T.map2 Rmult _ sd) as [noise|err]; cbn [res_bind];
    [|reflexivity].
  destruct (T.map2 Rplus mean noise) as [sample|err]; cbn [res_bind];
    [|reflexivity].
  eexists _, _. split; [reflexivity|].
  split; [|split; [|split]].
  - cbn [heap alloc advance]. rewrite Hheap, <- !app_assoc. eauto.
  - cbn [gen alloc advance]. now rewrite Hgen.
  - unfold fresh. rewrite !length_heap_alloc.
    cbn [heap advance]. rewrite !length_heap_alloc, Hheap, length_app. lia.
  - auto with store.
Qed.

End ActionRuns.

Lemma draw_shape b n g : has_shape (draw b n g) b n = true.
Proof.
  apply has_shape_iff. unfold draw, batch; simpl.
  rewrite length_map, length_seq. repeat split.
  rewrite Forall_map, Forall_forall. intros i _.
  now rewrite length_map, length_seq.
Qed.

Lemma map2_shape f x y b n :
  has_shape x b n = true -> has_shape y b n = true ->
  exists t, T.map2 f x y = Ok t /\ has_shape t b n = true.
Proof.
  rewrite !has_shape_iff. intros (Bx & Wx & Rx) (By & Wy & Ry).
  unfold T.map2. rewrite Bx, By, Wx, Wy, !Nat.eqb_refl; simpl.
  eexists; split; [reflexivity|].
  apply has_shape_iff; unfold batch in *; simpl.
  split; [|split; [reflexivity|]].
  - now apply length_zip_with_eq.
  - apply Forall_zip_with. intros r r' Hr Hr'.
    rewrite Forall_forall in Rx, Ry.
    apply length_zip_with_eq; auto.
Qed.

Section ActionShapes.

Import ActionModel.

Variables (S Hd A hid : nat) (arg : R) (self : t).
Hypothesis Hinit : init S Hd A hid arg self.

Lemma spec_action_shape ts th b :
  has_shape ts b S = true -> has_shape th b Hd = true ->
  exists hidden raw_mean raw,
    Spec.action_hidden self ts th = Ok hidden /\
    Linear.forward (fc_mean self) hidden = Ok raw_mean /\
    Linear.forward (fc_stddev self) hidden = Ok raw /\
    has_shape raw_mean b A = true /\ has_shape raw b A = true /\
    Spec.action_distribution self ts th
    = Ok (T.map (fun v => 5 * tanh (v / 5)) raw_mean,
          T.map (fun v => F_softplus (v + init_stddev self) + min_stddev self)
            raw).
Proof.
  intros Ss Sh.
  destruct Hinit as (L1 & L2 & L3 & L4 & Lm & Ls & _).
  unfold Spec.action_distribution, Spec.action_hidden.
  destruct (cat_shape _ _ _ _ _ Ss Sh) as (x & -> & Hx); cbn [res_bind].
  destruct (linear_shape _ _ _ _ _ L1 Hx) as (y1 & -> & Hy1); cbn [res_bind].
  destruct (linear_shape _ _ _ _ _ L2 (map_shape (act self) _ _ _ Hy1))
    as (y2 & -> & Hy2); cbn [res_bind].
  destruct (linear_shape _ _ _ _ _ L3 (map_shape (act self) _ _ _ Hy2))
    as (y3 & -> & Hy3); cbn [res_bind].
  destruct (linear_shape _ _ _ _ _ L4 (map_shape (act self) _ _ _ Hy3))
    as (y4 & -> & Hy4); cbn [res_bind].
  pose proof (map_shape (act self) _ _ _ Hy4) as Hhid.
  destruct (linear_shape _ _ _ _ _ Lm Hhid) as (rm & Em & Hrm).
  destruct (linear_shape _ _ _ _ _ Ls Hhid) as (rs & Es & Hrs).
  exists (T.map (act self) y4), rm, rs.
  rewrite Em, Es; cbn [res_bind]. auto 10.
Qed.

End ActionShapes.

(** ** Shapes in the encoder *)

Lemma plane_shape_iff h w (p : plane) :
  plane_shape h w p = true <->
  length p = h /\ Forall (fun r => length r = w) p.
Proof.
  unfold plane_shape.
  rewrite andb_true_iff, Nat.eqb_eq, forallb_length_Forall. tauto.
Qed.

Lemma image_shape_iff c h w (i : image) :
  image_shape c h w i = true <->
  length i = c /\ Forall (fun p => plane_shape h w p = true) i.
Proof.
  unfold image_shape.
  rewrite andb_true_iff, Nat.eqb_eq, forallb_forall, Forall_forall. tauto.
Qed.

Lemma has_shape4_iff x b c h w :
  has_shape4 x b c h w = true <->
  batch4 x = b /\ channels x = c /\ height x = h /\ extent x = w /\
  Forall (fun i => image_shape c h w i = true) (images x).
Proof.
  unfold has_shape4.
  rewrite !andb_true_iff, !Nat.eqb_eq, forallb_forall, Forall_forall. tauto.
Qed.

Lemma Conv2d_init_iff i o k s c :
  Conv2d.init i o k s c = true <->
  Conv2d.in_channels c = i /\ Conv2d.out_channels c = o /\
  Conv2d.kernel_size c = k /\ Conv2d.stride c = s /\
  length (Conv2d.weight c) = o /\ length (Conv2d.bias c) = o /\
  Forall (fun f => image_shape i k k f = true) (Conv2d.weight c).
Proof.
  unfold Conv2d.init.
  rewrite !andb_true_iff, !Nat.eqb_eq, forallb_forall, Forall_forall. tauto.
Qed.

Lemma conv_image_shape c o oh ow input :
  length (Conv2d.weight c) = o -> length (Conv2d.bias c) = o ->
  image_shape o oh ow (Conv2d.conv_image c oh ow input) = true.
Proof.
  intros Hw Hb. apply image_shape_iff. unfold Conv2d.conv_image. split.
  - now apply length_zip_with_eq.
  - apply Forall_zip_with. intros f bo _ _.
    apply plane_shape_iff. rewrite length_map, length_seq. split; auto.
    rewrite Forall_map, Forall_forall. intros i _.
    now rewrite length_map, length_seq.
Qed.

Lemma conv_shape i o k s c x b h w :
  Conv2d.init i o k s c = true -> has_shape4 x b i h w = true ->
  (k <= h)%nat -> (k <= w)%nat ->
  exists y,
    Conv2d.forward c x = Ok y /\
    has_shape4 y b o (Conv2d.out_extent k s h) (Conv2d.out_extent k s w)
    = true.
Proof.
  rewrite Conv2d_init_iff, has_shape4_iff.
  intros (Hi & Ho & Hk & Hs & HW & HB & _) (Bx & Cx & Hx & Wx & _) Hkh Hkw.
  unfold Conv2d.forward. rewrite Cx, Hi, Nat.eqb_refl, Hx, Wx, Hk, Hs; simpl.
  destruct (Nat.ltb_spec h k); [lia|].
  destruct (Nat.ltb_spec w k); [lia|].
  eexists; split; [reflexivity|].
  apply has_shape4_iff; unfold batch4 in *; simpl.
  rewrite length_map. repeat split; auto.
  rewrite Forall_map, Forall_forall. intros img _.
  rewrite <- Ho. apply conv_image_shape; congruence.
Qed.

Lemma map4_shape f x b c h w :
  has_shape4 x b c h w = true -> has_shape4 (map4 f x) b c h w = true.
Proof.
  rewrite !has_shape4_iff. intros (Bx & Cx & Hx & Wx & Hall).
  unfold map4, batch4 in *; simpl. rewrite length_map.
  repeat split; auto.
  rewrite Forall_map. eapply Forall_impl; [|exact Hall].
  intros img. rewrite !image_shape_iff. intros (Hc & Hp).
  rewrite length_map. split; auto.
  rewrite Forall_map. eapply Forall_impl; [|exact Hp].
  intros p. rewrite !plane_shape_iff. intros (Hh & Hr).
  rewrite length_map. split; auto.
  rewrite Forall_map. eapply Forall_impl; [|exact Hr].
  intros r <-. apply length_map.
Qed.

Lemma length_concat_uniform {X} n (ls : list (list X)) :
  Forall (fun l => length l = n) ls ->
  length (concat ls) = (length ls * n)%nat.
Proof.
  induction 1 as [|l ls Hl _ IH]; simpl; [reflexivity|].
  rewrite length_app, IH, Hl. reflexivity.
Qed.

Lemma length_flatten x b c h w :
  has_shape4 x b c h w = true ->
  length (flatten x) = (b * (c * (h * w)))%nat.
Proof.
  rewrite has_shape4_iff. intros (Bx & _ & _ & _ & Hall).
  unfold flatten, batch4 in *.
  rewrite (length_concat_uniform (c * (h * w))).
  - now rewrite length_map, Bx.
  - rewrite Forall_map. eapply Forall_impl; [|exact Hall].
    intros img. rewrite image_shape_iff. intros (Hc & Hp).
    unfold flatten_image.
    rewrite (length_concat_uniform (h * w)).
    + rewrite length_map. f_equal. exact Hc.
    + rewrite Forall_map. eapply Forall_impl; [|exact Hp].
      intros p. rewrite plane_shape_iff. intros (Hh & Hr).
      rewrite (length_concat_uniform w _ Hr). f_equal. exact Hh.
Qed.

Lemma chunk_shape n count l :
  length l = (count * n)%nat ->
  length (chunk n count l) = count /\
  Forall (fun r => length r = n) (chunk n count l).
Proof.
  revert l; induction count as [|count IH]; intros l Hl; simpl.
  - split; constructor.
  - destruct (IH (skipn n l)) as (Hlen & Hall).
    { rewrite length_skipn, Hl. simpl. lia. }
    split; [now rewrite Hlen|].
    constructor; [|exact Hall].
    rewrite length_firstn, Hl. simpl. lia.
Qed.

Lemma reshape_shape x b c h w :
  has_shape4 x b c h w = true -> (0 < b)%nat ->
  exists t, reshape b x = Ok t /\ has_shape t b (c * (h * w)) = true.
Proof.
  intros Hx Hb. pose proof (length_flatten _ _ _ _ _ Hx) as Hflat.
  apply has_shape4_iff in Hx. destruct Hx as (Bx & Cx & Hh & Wx & _).
  unfold reshape. rewrite Bx, Cx, Hh, Wx.
  destruct (Nat.eqb_spec b 0); [lia|].
  rewrite (Nat.mul_comm b), Nat.Div0.mod_mul, Nat.eqb_refl.
  rewrite Nat.div_mul by lia.
  eexists; split; [reflexivity|].
  apply has_shape_iff; unfold batch; simpl.
  destruct (chunk_shape (c * (h * w)) b (flatten x)) as (Hlen & Hall).
  { exact Hflat. }
  auto.
Qed.

(** ** Runs on the concrete instances *)

Example softplus_at_0 : F_softplus 0 = ln 2 /\ 0 < F_softplus 0.
Proof.
  split; [|apply F_softplus_pos].
  unfold F_softplus. destruct (Rlt_dec 20 0) as [H|_]; [lra|].
  rewrite exp_0. replace (1 + 1) with 2 by lra. reflexivity.
Qed.

Example conv_extents :
  map (Conv2d.out_extent 4 2) [64; 31; 14; 6]%nat = [31; 14; 6; 2]%nat.
Proof. reflexivity. Qed.

(** An empty batch passes the convolutions and is rejected by the reshape,
    which cannot infer the width of zero rows. *)
Example encoder_empty_batch :
  Encoder.forward Sample.encoder (Sample.frames 0) = Err AmbiguousReshape.
Proof. vm_compute. reflexivity. Qed.

(** An in-place operation changes a tensor of the store: the store after
    it does not extend the store before it. *)
Example in_place_overwrites :
  let w := mkWorld [mkTensor 1 [[-1]]] (fun _ => 0) in
  exists w',
    pointwise_ F_relu 0%nat w = Ok (0%nat, w') /\
    points_to w' 0%nat (mkTensor 1 [[0]]) /\ ~ extends w w'.
Proof.
  assert (Hrelu : F_relu (-1) = 0).
  { unfold F_relu. destruct (Rlt_dec 0 (-1)); [lra | reflexivity]. }
  eexists. split; [reflexivity|]. split.
  - unfold points_to, T.map; simpl. now rewrite Hrelu.
  - intros ((more & Hheap) & _). simpl in Hheap.
    injection Hheap as Hentry _. rewrite Hrelu in Hentry. lra.
Qed.

(** A batch whose size differs between state and action is rejected by the
    concatenation. *)
Example prior_batch_mismatch :
  RecurrentStateSpaceModel.prior (Sample.rssm 1 1 1 1) 0%nat 1%nat 2%nat
    (mkWorld [Sample.zeros 2 1; Sample.zeros 3 1; Sample.zeros 2 1]
       (fun _ => 0))
  = Err (BatchMismatch 2 3).
Proof. reflexivity. Qed.

(** * The claims *)

Section Claims.

Import RecurrentStateSpaceModel.



(** C2.  [forward] is [prior] followed by [posterior] on the deterministic
    state that [prior] returned: it returns the prior distribution, the
    posterior distribution and that state.  On allocated arguments the five
    returned tensors are those of the spec's step, whose posterior is
    computed from the advanced state. *)
Theorem forward_is_prior_then_posterior self w s a h e ts ta th te :
  points_to w s ts -> points_to w a ta -> points_to w h th ->
  points_to w e te ->
  forward self s a h e w =
  match prior self s a h w with
  | Err err => Err err
  | Ok ((d_prior, h'), w1) =>
      match posterior self h' e w1 with
      | Err err => Err err
      | Ok (d_post, w2) => Ok ((d_prior, d_post, h'), w2)
      end
  end /\
  match Spec.step self ts ta th te with
  | Err err => forward self s a h e w = Err err
  | Ok ((m, sd), (pm, psd), h') =>
      Spec.prior self ts ta th = Ok (m, sd, h') /\
      Spec.posterior self h' te = Ok (pm, psd) /\
      exists dp dq r w',
        forward self s a h e w = Ok ((dp, dq, r), w') /\
        points_to w' (loc dp) m /\ points_to w' (scale dp) sd /\
        points_to w' (loc dq) pm /\ points_to w' (scale dq) psd /\
        points_to w' r h'
  end.
Proof.
  intros Ps Pa Ph Pe. split; [apply forward_unfold|].
  pose proof (forward_run self w s a h e ts ta th te Ps Pa Ph Pe) as Hrun.
  destruct (Spec.step self ts ta th te) as [[[[m sd] [pm psd]] h']|err] eqn:E;
    [|exact Hrun].
  unfold Spec.step in E.
  destruct (Spec.prior self ts ta th) as [[[m0 sd0] h0]|]; cbn [res_bind] in E;
    [|discriminate].
  destruct (Spec.posterior self h0 te) as [[pm0 psd0]|] eqn:Eq;
    cbn [res_bind] in E; [|discriminate].
  injection E as <- <- <- <- <-.
  split; [reflexivity|]. split; [exact Eq|].
  destruct Hrun as (dp & dq & r & w' & Hf & _ & _ & _ & _ & _ & _ & Hpts).
  exists dp, dq, r, w'. split; [exact Hf | exact Hpts].
Qed.

Lemma forward_is_prior_then_posterior_witness :
  exists dp dq r w',
    forward (Sample.rssm 1 1 1 1) 0%nat 1%nat 2%nat 3%nat
      (Sample.world 1 1 1 1) = Ok ((dp, dq, r), w') /\
    points_to w' r
      (mkTensor 1
         [GRUCell.cell (Sample.gru 1 1)
            (map F_elu (affine [[0; 0]] [0] [0; 0])) [0]]).
Proof.
  destruct (forward_is_prior_then_posterior (Sample.rssm 1 1 1 1)
              (Sample.world 1 1 1 1) 0%nat 1%nat 2%nat 3%nat
              (Sample.zeros 1 1) (Sample.zeros 1 1) (Sample.zeros 1 1)
              (Sample.zeros 1 1024) eq_refl eq_refl eq_refl eq_refl)
    as [_ Hstep].
  cbv -[Rplus Rmult Rminus Rdiv Ropp Rinv exp ln tanh F_elu F_softplus
        sigmoid forward points_to] in Hstep.
  destruct Hstep as (_ & _ & dp & dq & r & w' & Hf & _ & _ & _ & _ & Hr).
  exists dp, dq, r, w'. split; [exact Hf|].
  cbv -[Rplus Rmult Rminus Rdiv Ropp Rinv exp ln tanh F_elu F_softplus
        sigmoid points_to].
  exact Hr.
Defined.

(** C3.  [prior(state, action, det_state)] computes the pipeline of the
    spec: hidden = act(fc_state_action(cat(state, action))); next_det_state
    = GRUCell(hidden, det_state); h2 = act(fc_rnn_hidden(next_det_state));
    the returned Gaussian has mean fc_state_mean_prior(h2) and stddev
    softplus(fc_state_stddev_prior(h2)) + min_stddev, and the returned
    deterministic state is the output of the GRU cell.  When a stage of the
    pipeline raises, [prior] raises the same error. *)
Theorem prior_computes_pipeline self w s a h ts ta th :
  points_to w s ts -> points_to w a ta -> points_to w h th ->
  match
    (x <-- T.cat ts ta ;;
     y <-- Linear.forward (fc_state_action self) x ;;
     next_det_state <-- GRUCell.forward (rnn self) (T.map (act self) y) th ;;
     y2 <-- Linear.forward (fc_rnn_hidden self) next_det_state ;;
     mean <-- Linear.forward (fc_state_mean_prior self) (T.map (act self) y2) ;;
     raw <-- Linear.forward (fc_state_stddev_prior self) (T.map (act self) y2) ;;
     Ok (mean, T.map (fun v => F_softplus v + _min_stddev self) raw,
         next_det_state))%res
  with
  | Err err => prior self s a h w = Err err
  | Ok (mean, stddev, next_det_state) =>
      exists d r w',
        prior self s a h w = Ok ((d, r), w') /\
        points_to w' (loc d) mean /\ points_to w' (scale d) stddev /\
        points_to w' r next_det_state
  end.
Proof.
  intros Ps Pa Ph.
  pose proof (prior_run self w s a h ts ta th Ps Pa Ph) as Hrun.
  unfold Spec.prior, Spec.stabilize in Hrun.
  match goal with
  | |- match ?p with Ok _ => _ | Err _ => _ end =>
      destruct p as [[[mean stddev] next]|err]; [|exact Hrun]
  end.
  destruct Hrun as (d & r & w' & Hp & _ & _ & _ & _ & Hpts).
  exists d, r, w'. split; [exact Hp | exact Hpts].
Qed.

Lemma prior_computes_pipeline_witness :
  exists d r w',
    prior (Sample.rssm 1 1 1 1) 0%nat 1%nat 2%nat (Sample.world 1 1 1 1)
    = Ok ((d, r), w') /\
    points_to w' r
      (mkTensor 1
         [GRUCell.cell (Sample.gru 1 1)
            (map F_elu (affine [[0; 0]] [0] [0; 0])) [0]]).
Proof.
  pose proof (prior_computes_pipeline (Sample.rssm 1 1 1 1)
                (Sample.world 1 1 1 1) 0%nat 1%nat 2%nat
                (Sample.zeros 1 1) (Sample.zeros 1 1) (Sample.zeros 1 1)
                eq_refl eq_refl eq_refl) as Hrun.
  cbv -[Rplus Rmult Rminus Rdiv exp ln tanh F_elu F_softplus sigmoid prior
        points_to] in Hrun.
  destruct Hrun as (d & r & w' & Hp & _ & _ & Hr).
  exists d, r, w'. split; [exact Hp|].
  cbv -[Rplus Rmult Rminus Rdiv exp ln tanh F_elu F_softplus sigmoid
        points_to].
  exact Hr.
Defined.

(** C4.  [prior] is deterministic: two calls whose arguments hold the same
    values, in any two stores and generator states, either raise the same
    error or return the same next deterministic state, mean and standard
    deviation; the call draws nothing from the random generator. *)
Theorem prior_deterministic self w1 w2 s1 a1 h1 s2 a2 h2 ts ta th :
  points_to w1 s1 ts -> points_to w1 a1 ta -> points_to w1 h1 th ->
  points_to w2 s2 ts -> points_to w2 a2 ta -> points_to w2 h2 th ->
  match prior self s1 a1 h1 w1, prior self s2 a2 h2 w2 with
  | Ok ((d1, r1), w1'), Ok ((d2, r2), w2') =>
      gen w1' = gen w1 /\ gen w2' = gen w2 /\
      exists m sd h',
        points_to w1' (loc d1) m /\ points_to w2' (loc d2) m /\
        points_to w1' (scale d1) sd /\ points_to w2' (scale d2) sd /\
        points_to w1' r1 h' /\ points_to w2' r2 h'
  | Err e1, Err e2 => e1 = e2
  | _, _ => False
  end.
Proof.
  intros P1s P1a P1h P2s P2a P2h.
  pose proof (prior_run self w1 s1 a1 h1 ts ta th P1s P1a P1h) as R1.
  pose proof (prior_run self w2 s2 a2 h2 ts ta th P2s P2a P2h) as R2.
  destruct (Spec.prior self ts ta th) as [[[m sd] h']|err].
  - destruct R1 as (d1 & r1 & w1' & -> & (_ & G1) & _ & _ & _ & A1 & B1 & C1).
    destruct R2 as (d2 & r2 & w2' & -> & (_ & G2) & _ & _ & _ & A2 & B2 & C2).
    repeat split; auto. exists m, sd, h'. auto 10.
  - now rewrite R1, R2.
Qed.

Lemma prior_deterministic_witness :
  match prior (Sample.rssm 1 1 1 1) 0%nat 1%nat 2%nat (Sample.world 1 1 1 1),
        prior (Sample.rssm 1 1 1 1) 3%nat 2%nat 1%nat
          (Sample.other_world 1 1 1 1)
  with
  | Ok ((d1, r1), w1'), Ok ((d2, r2), w2') =>
      gen w1' = gen (Sample.world 1 1 1 1) /\
      gen w2' = gen (Sample.other_world 1 1 1 1) /\
      exists m sd h',
        points_to w1' (loc d1) m /\ points_to w2' (loc d2) m /\
        points_to w1' (scale d1) sd /\ points_to w2' (scale d2) sd /\
        points_to w1' r1 h' /\ points_to w2' r2 h'
  | Err e1, Err e2 => e1 = e2
  | _, _ => False
  end.
Proof.
  apply (prior_deterministic (Sample.rssm 1 1 1 1)
           (Sample.world 1 1 1 1) (Sample.other_world 1 1 1 1)
           0%nat 1%nat 2%nat 3%nat 2%nat 1%nat
           (Sample.zeros 1 1) (Sample.zeros 1 1) (Sample.zeros 1 1));
    reflexivity.
Defined.

(** C5.  No RSSM operation mutates its inputs: after [prior], [posterior]
    and [forward] every tensor of the store, the arguments among them,
    holds the value it held before, and the returned references are newly
    allocated.  In particular [posterior] leaves the deterministic state
    as it was. *)
Theorem rssm_leaves_inputs_unchanged self w s a h e ts ta th te :
  points_to w s ts -> points_to w a ta -> points_to w h th ->
  points_to w e te ->
  (forall d r w',
      prior self s a h w = Ok ((d, r), w') ->
      extends w w' /\
      points_to w' s ts /\ points_to w' a ta /\ points_to w' h th /\
      fresh w (loc d) /\ fresh w (scale d) /\ fresh w r) /\
  (forall d w',
      posterior self h e w = Ok (d, w') ->
      extends w w' /\
      points_to w' h th /\ points_to w' e te /\
      fresh w (loc d) /\ fresh w (scale d)) /\
  (forall dp dq r w',
      forward self s a h e w = Ok ((dp, dq, r), w') ->
      extends w w' /\
      points_to w' s ts /\ points_to w' a ta /\ points_to w' h th /\
      points_to w' e te /\
      fresh w (loc dp) /\ fresh w (scale dp) /\
      fresh w (loc dq) /\ fresh w (scale dq) /\ fresh w r).
Proof.
  intros Ps Pa Ph Pe. split; [|split].
  - intros d r w' Hrun.
    pose proof (prior_run self w s a h ts ta th Ps Pa Ph) as R.
    destruct (Spec.prior self ts ta th) as [[[m sd] h']|err];
      [|congruence].
    destruct R as (d0 & r0 & w0 & E & Hext & F1 & F2 & F3 & _).
    rewrite E in Hrun. injection Hrun as <- <- <-.
    repeat match goal with |- _ /\ _ => split end;
      eauto using extends_points_to.
  - intros d w' Hrun.
    pose proof (posterior_run self w h e th te Ph Pe) as R.
    destruct (Spec.posterior self th te) as [[m sd]|err]; [|congruence].
    destruct R as (d0 & w0 & E & Hext & F1 & F2 & _).
    rewrite E in Hrun. injection Hrun as <- <-.
    repeat match goal with |- _ /\ _ => split end;
      eauto using extends_points_to.
  - intros dp dq r w' Hrun.
    pose proof (forward_run self w s a h e ts ta th te Ps Pa Ph Pe) as R.
    destruct (Spec.step self ts ta th te) as [[[[m sd] [pm psd]] h']|err];
      [|congruence].
    destruct R as (dp0 & dq0 & r0 & w0 & E & Hext & F1 & F2 & F3 & F4 & F5 & _).
    rewrite E in Hrun. injection Hrun as <- <- <- <-.
    repeat match goal with |- _ /\ _ => split end;
      eauto using extends_points_to.
Qed.

Lemma rssm_leaves_inputs_unchanged_witness :
  exists d r w',
    prior (Sample.rssm 1 1 1 1) 0%nat 1%nat 2%nat (Sample.world 1 1 1 1)
    = Ok ((d, r), w') /\
    points_to w' 0%nat (Sample.zeros 1 1) /\
    points_to w' 2%nat (Sample.zeros 1 1) /\
    fresh (Sample.world 1 1 1 1) r.
Proof.
  destruct (rssm_leaves_inputs_unchanged (Sample.rssm 1 1 1 1)
              (Sample.world 1 1 1 1) 0%nat 1%nat 2%nat 3%nat
              (Sample.zeros 1 1) (Sample.zeros 1 1) (Sample.zeros 1 1)
              (Sample.zeros 1 1024) eq_refl eq_refl eq_refl eq_refl)
    as (Hprior & _ & _).
  destruct (prior (Sample.rssm 1 1 1 1) 0%nat 1%nat 2%nat
              (Sample.world 1 1 1 1)) as [[[d r] w1]|err] eqn:Ep.
  - exists d, r, w1. split; [reflexivity|].
    destruct (Hprior d r w1 eq_refl) as (_ & Hs & _ & Hh & _ & _ & Hr).
    auto.
  - exfalso. revert Ep. evaluate. discriminate.
Defined.

(** C6, as the code has it.  With the model built for widths S, A, H, a
    call of [prior] on state and action of one batch size b whose widths
    add up to S + A, and a deterministic state of shape (b, H), returns
    mean and standard deviation of shape (b, S) and a next deterministic
    state of shape (b, H): this is so for state of width S and action of
    width A, and also for widths that differ from S and A by opposite
    amounts.  When the widths of state and action do not add up to S + A,
    or the deterministic state is not of width H, the call raises a
    dimension error naming the expected and the actual width. *)
Theorem prior_shape_contract S A H hid self w s a h ts ta th b :
  init S A H hid self = true ->
  points_to w s ts -> points_to w a ta -> points_to w h th ->
  batch ts = b -> batch ta = b -> batch th = b ->
  ((width ts + width ta = S + A)%nat -> has_shape th b H = true ->
   exists d r w' m sd h',
     prior self s a h w = Ok ((d, r), w') /\
     points_to w' (loc d) m /\ points_to w' (scale d) sd /\
     points_to w' r h' /\
     has_shape m b S = true /\ has_shape sd b S = true /\
     has_shape h' b H = true) /\
  ((width ts + width ta <> S + A)%nat ->
   prior self s a h w = Err (DimMismatch (S + A) (width ts + width ta))) /\
  ((width ts + width ta = S + A)%nat -> width th <> H ->
   prior self s a h w = Err (DimMismatch H (width th))).
Proof.
  intros Hinit Ps Pa Ph Bs Ba Bh.
  pose proof (prior_run self w s a h ts ta th Ps Pa Ph) as Hrun.
  split; [|split].
  - intros Hw Sh.
    destruct (spec_prior_accepts S A H hid self Hinit ts ta th b Bs Ba Hw Sh)
      as (m & sd & h' & E & Sm & Ssd & Sh').
    rewrite E in Hrun.
    destruct Hrun as (d & r & w' & Hp & _ & _ & _ & _ & Pm & Psd & Pr).
    exists d, r, w', m, sd, h'. auto 10.
  - intros Hw.
    rewrite (spec_prior_rejects_features S A H hid self Hinit ts ta th)
      in Hrun by congruence.
    exact Hrun.
  - intros Hw Hwh.
    rewrite (spec_prior_rejects_hidden S A H hid self Hinit ts ta th)
      in Hrun by congruence.
    exact Hrun.
Qed.

Lemma prior_shape_contract_witness :
  exists d r w' m sd h',
    prior (Sample.rssm 1 1 1 1) 0%nat 1%nat 2%nat (Sample.world 3 1 1 1)
    = Ok ((d, r), w') /\
    points_to w' (loc d) m /\ points_to w' (scale d) sd /\
    points_to w' r h' /\
    has_shape m 3 1 = true /\ has_shape sd 3 1 = true /\
    has_shape h' 3 1 = true.
Proof.
  apply (prior_shape_contract 1 1 1 1 (Sample.rssm 1 1 1 1)
           (Sample.world 3 1 1 1) 0%nat 1%nat 2%nat
           (Sample.zeros 3 1) (Sample.zeros 3 1) (Sample.zeros 3 1) 3%nat);
    reflexivity.
Defined.

(** C6, as stated, fails: a model built for state width 2 and action width
    1 accepts a state of width 1 together with an action of width 2, and
    returns a distribution and a deterministic state; no error is raised. *)
Lemma prior_accepts_swapped_widths :
  init 2 1 1 1 (Sample.rssm 2 1 1 1) = true /\
  points_to Sample.swapped_world 0%nat (Sample.zeros 1 1) /\
  points_to Sample.swapped_world 1%nat (Sample.zeros 1 2) /\
  points_to Sample.swapped_world 2%nat (Sample.zeros 1 1) /\
  width (Sample.zeros 1 1) <> 2%nat /\ width (Sample.zeros 1 2) <> 1%nat /\
  exists d r w' m sd h',
    prior (Sample.rssm 2 1 1 1) 0%nat 1%nat 2%nat Sample.swapped_world
    = Ok ((d, r), w') /\
    points_to w' (loc d) m /\ points_to w' (scale d) sd /\
    points_to w' r h' /\
    has_shape m 1 2 = true /\ has_shape sd 1 2 = true /\
    has_shape h' 1 1 = true.
Proof.
  repeat match goal with |- _ /\ _ => split end;
    try reflexivity; try (simpl; lia).
  evaluate. do 6 eexists.
  repeat match goal with |- _ /\ _ => split end; reflexivity.
Qed.







(** C9.  The encoder maps a non-empty batch of b images of shape
    (b, 3, 64, 64) to an embedding of shape (b, 1024): the four
    convolutions with kernel 4 and stride 2 give hidden layers of shapes
    (b, 32, 31, 31), (b, 64, 14, 14), (b, 128, 6, 6) and (b, 256, 2, 2),
    and the reshape yields 256 * 2 * 2 = 1024 entries per row. *)
Theorem encoder_embedding_shape self obs b :
  Encoder.init self = true ->
  has_shape4 obs b 3 64 64 = true -> (0 < b)%nat ->
  exists h1 h2 h3 h4 e,
    Conv2d.forward (Encoder.cv1 self) obs = Ok h1 /\
    has_shape4 h1 b 32 31 31 = true /\
    Conv2d.forward (Encoder.cv2 self) (map4 F_relu h1) = Ok h2 /\
    has_shape4 h2 b 64 14 14 = true /\
    Conv2d.forward (Encoder.cv3 self) (map4 F_relu h2) = Ok h3 /\
    has_shape4 h3 b 128 6 6 = true /\
    Conv2d.forward (Encoder.cv4 self) (map4 F_relu h3) = Ok h4 /\
    has_shape4 h4 b 256 2 2 = true /\
    Encoder.forward self obs = Ok e /\
    has_shape e b 1024 = true.
Proof.
  intros Hinit Hobs Hb.
  unfold Encoder.init in Hinit. rewrite !andb_true_iff in Hinit.
  destruct Hinit as (((I1 & I2) & I3) & I4).
  destruct (conv_shape _ _ _ _ _ _ _ _ _ I1 Hobs) as (h1 & E1 & S1);
    [lia | lia |].
  change (Conv2d.out_extent 4 2 64) with 31%nat in S1.
  destruct (conv_shape _ _ _ _ _ _ _ _ _ I2 (map4_shape F_relu _ _ _ _ _ S1))
    as (h2 & E2 & S2); [lia | lia |].
  change (Conv2d.out_extent 4 2 31) with 14%nat in S2.
  destruct (conv_shape _ _ _ _ _ _ _ _ _ I3 (map4_shape F_relu _ _ _ _ _ S2))
    as (h3 & E3 & S3); [lia | lia |].
  change (Conv2d.out_extent 4 2 14) with 6%nat in S3.
  destruct (conv_shape _ _ _ _ _ _ _ _ _ I4 (map4_shape F_relu _ _ _ _ _ S3))
    as (h4 & E4 & S4); [lia | lia |].
  change (Conv2d.out_extent 4 2 6) with 2%nat in S4.
  destruct (reshape_shape _ _ _ _ _ (map4_shape F_relu _ _ _ _ _ S4) Hb)
    as (e & Ee & Se).
  change (256 * (2 * 2))%nat with 1024%nat in Se.
  exists h1, h2, h3, h4, e.
  unfold Encoder.forward. rewrite E1; cbn [res_bind].
  rewrite E2; cbn [res_bind]. rewrite E3; cbn [res_bind].
  rewrite E4; cbn [res_bind].
  assert (Hb3 : batch4 (map4 F_relu h3) = b).
  { pose proof (map4_shape F_relu _ _ _ _ _ S3) as S3'.
    apply has_shape4_iff in S3'. tauto. }
  rewrite Hb3. auto 12.
Qed.

Lemma encoder_embedding_shape_witness :
  exists e,
    Encoder.forward Sample.encoder (Sample.frames 1) = Ok e /\
    has_shape e 1 1024 = true.
Proof.
  destruct (encoder_embedding_shape Sample.encoder (Sample.frames 1) 1%nat)
    as (h1 & h2 & h3 & h4 & e & _ & _ & _ & _ & _ & _ & _ & _ & He & Se).
  - vm_compute. reflexivity.
  - vm_compute. reflexivity.
  - apply Nat.lt_0_1.
  - exists e. auto.
Defined.

End Claims.

(** * Further properties of the models *)

(** ** The state-space model: what it accepts, what it rejects *)

Lemma cat_rejects a c :
  batch a <> batch c -> T.cat a c = Err (BatchMismatch (batch a) (batch c)).
Proof.
  intros Hb. unfold T.cat.
  destruct (Nat.eqb_spec (batch a) (batch c)); [contradiction | reflexivity].
Qed.

Lemma gru_rejects_batch i h c x hx :
  GRUCell.init i h c = true ->
  width x = i -> batch x <> batch hx ->
  GRUCell.forward c x hx = Err (BatchMismatch (batch x) (batch hx)).
Proof.
  rewrite GRUCell_init_iff. intros (Hi & _) Hw Hb.
  unfold GRUCell.forward. rewrite Hi, Hw, Nat.eqb_refl; simpl.
  destruct (Nat.eqb_spec (batch x) (batch hx)); [contradiction | reflexivity].
Qed.

Section RSSMContracts.

Import RecurrentStateSpaceModel.

Variables (S A H hid : nat) (self : t).
Hypothesis Hinit : init S A H hid self = true.

Lemma spec_posterior_accepts th te b :
  batch th = b -> batch te = b ->
  (width th + width te = H + 1024)%nat ->
  exists m sd,
    Spec.posterior self th te = Ok (m, sd) /\
    has_shape m b S = true /\ has_shape sd b S = true.
Proof.
  intros Bh Be Hw.
  destruct (init_parts S A H hid self Hinit)
    as (_ & _ & _ & _ & L5 & L6 & L7 & _).
  unfold Spec.posterior.
  destruct (cat_accepts _ _ _ Bh Be) as (x & -> & Bx & Wx); cbn [res_bind].
  rewrite Hw in Wx.
  destruct (linear_accepts _ _ _ _ _ L5 Bx Wx) as (y & -> & Hy);
    cbn [res_bind].
  pose proof (map_shape (act self) _ _ _ Hy) as Hh2.
  destruct (linear_shape _ _ _ _ _ L6 Hh2) as (m & -> & Hm); cbn [res_bind].
  destruct (linear_shape _ _ _ _ _ L7 Hh2) as (raw & -> & Hraw);
    cbn [res_bind].
  exists m, (Spec.stabilize (_min_stddev self) raw).
  repeat split; auto. now apply map_shape.
Qed.

Lemma spec_posterior_rejects_features th te :
  batch th = batch te ->
  (width th + width te <> H + 1024)%nat ->
  Spec.posterior self th te
  = Err (DimMismatch (H + 1024) (width th + width te)).
Proof.
  intros Hb Hw.
  destruct (init_parts S A H hid self Hinit) as (_ & _ & _ & _ & L5 & _).
  unfold Spec.posterior.
  destruct (cat_accepts th te _ eq_refl (eq_sym Hb)) as (x & -> & _ & Wx).
  cbn [res_bind]. rewrite <- Wx in *.
  now rewrite (linear_rejects _ _ _ _ L5 Hw).
Qed.

Lemma spec_posterior_rejects_batch th te :
  batch th <> batch te ->
  Spec.posterior self th te = Err (BatchMismatch (batch th) (batch te)).
Proof.
  intros Hb. unfold Spec.posterior. now rewrite (cat_rejects _ _ Hb).
Qed.

Lemma spec_prior_rejects_batch ts ta th :
  batch ts <> batch ta ->
  Spec.prior self ts ta th = Err (BatchMismatch (batch ts) (batch ta)).
Proof.
  intros Hb. unfold Spec.prior. now rewrite (cat_rejects _ _ Hb).
Qed.

Lemma spec_prior_rejects_hidden_batch ts ta th :
  batch ts = batch ta -> (width ts + width ta = S + A)%nat ->
  batch ts <> batch th ->
  Spec.prior self ts ta th = Err (BatchMismatch (batch ts) (batch th)).
Proof.
  intros Hb Hw Hbh.
  destruct (init_parts S A H hid self Hinit) as (L1 & _ & _ & _ & _ & _ & _ & G).
  unfold Spec.prior.
  destruct (cat_accepts ts ta _ eq_refl (eq_sym Hb)) as (x & -> & Bx & Wx).
  cbn [res_bind]. rewrite Hw in Wx.
  destruct (linear_accepts _ _ _ _ _ L1 Bx Wx) as (y & -> & Hy).
  cbn [res_bind].
  pose proof (map_shape (act self) _ _ _ Hy) as Hy'.
  apply has_shape_iff in Hy'. destruct Hy' as (By & Wy & _).
  rewrite (gru_rejects_batch hid H (rnn self) _ th G Wy); [|congruence].
  now rewrite By.
Qed.

(** X1.  [posterior] checks the batch sizes and the sum of the two widths,
    nothing else: on a deterministic state and an embedding of one batch
    size b whose widths add up to H + 1024 it returns mean and standard
    deviation of shape (b, S); when the widths add up to something else it
    raises a dimension error naming H + 1024 and the actual sum; when the
    batch sizes differ the concatenation raises. *)
Theorem posterior_shape_contract w h e th te :
  points_to w h th -> points_to w e te ->
  (batch th = batch te -> (width th + width te = H + 1024)%nat ->
   exists d w' m sd,
     posterior self h e w = Ok (d, w') /\
     points_to w' (loc d) m /\ points_to w' (scale d) sd /\
     has_shape m (batch th) S = true /\ has_shape sd (batch th) S = true) /\
  (batch th = batch te -> (width th + width te <> H + 1024)%nat ->
   posterior self h e w
   = Err (DimMismatch (H + 1024) (width th + width te))) /\
  (batch th <> batch te ->
   posterior self h e w = Err (BatchMismatch (batch th) (batch te))).
Proof.
  intros Ph Pe.
  pose proof (posterior_run self w h e th te Ph Pe) as Hrun.
  split; [|split].
  - intros Hb Hw.
    destruct (spec_posterior_accepts th te (batch th) eq_refl (eq_sym Hb) Hw)
      as (m & sd & E & Sm & Ssd).
    rewrite E in Hrun.
    destruct Hrun as (d & w' & Hp & _ & _ & _ & Pm & Psd).
    exists d, w', m, sd. auto.
  - intros Hb Hw.
    now rewrite (spec_posterior_rejects_features th te Hb Hw) in Hrun.
  - intros Hb.
    now rewrite (spec_posterior_rejects_batch th te Hb) in Hrun.
Qed.

(** X2.  Batch sizes in [prior]: when state and action differ in batch
    size the concatenation raises; when they agree, and their widths add up
    to S + A, a deterministic state of another batch size is rejected by
    the recurrent cell, whatever its width. *)
Theorem prior_batch_errors w s a h ts ta th :
  points_to w s ts -> points_to w a ta -> points_to w h th ->
  (batch ts <> batch ta ->
   prior self s a h w = Err (BatchMismatch (batch ts) (batch ta))) /\
  (batch ts = batch ta -> (width ts + width ta = S + A)%nat ->
   batch ts <> batch th ->
   prior self s a h w = Err (BatchMismatch (batch ts) (batch th))).
Proof.
  intros Ps Pa Ph.
  pose proof (prior_run self w s a h ts ta th Ps Pa Ph) as Hrun.
  split.
  - intros Hb. now rewrite (spec_prior_rejects_batch ts ta th Hb) in Hrun.
  - intros Hb Hw Hbh.
    now rewrite (spec_prior_rejects_hidden_batch ts ta th Hb Hw Hbh) in Hrun.
Qed.

(** X3.  One step on inputs of the configured shapes: with an embedding of
    shape (b, 1024), [forward] returns prior and posterior parameters of
    shape (b, S) and a deterministic state of shape (b, H).  An embedding
    of another width is rejected by the posterior, after the prior has run,
    with a dimension error naming H + 1024; an embedding of another batch
    size is rejected by the concatenation. *)
Theorem forward_shape_contract w s a h e ts ta th te b :
  points_to w s ts -> points_to w a ta -> points_to w h th ->
  points_to w e te ->
  has_shape ts b S = true -> has_shape ta b A = true ->
  has_shape th b H = true ->
  (has_shape te b 1024 = true ->
   exists dp dq r w' m sd pm psd h',
     forward self s a h e w = Ok ((dp, dq, r), w') /\
     points_to w' (loc dp) m /\ points_to w' (scale dp) sd /\
     points_to w' (loc dq) pm /\ points_to w' (scale dq) psd /\
     points_to w' r h' /\
     has_shape m b S = true /\ has_shape sd b S = true /\
     has_shape pm b S = true /\ has_shape psd b S = true /\
     has_shape h' b H = true) /\
  (batch te = b -> width te <> 1024%nat ->
   forward self s a h e w
   = Err (DimMismatch (H + 1024) (H + width te))) /\
  (batch te <> b ->
   forward self s a h e w = Err (BatchMismatch b (batch te))).
Proof.
  intros Ps Pa Ph Pe Ss Sa Sh.
  pose proof (forward_run self w s a h e ts ta th te Ps Pa Ph Pe) as Hrun.
  destruct (spec_prior_shape S A H hid self Hinit ts ta th b Ss Sa Sh)
    as (m & sd & h' & E & Sm & Ssd & Sh').
  unfold Spec.step in Hrun. rewrite E in Hrun. cbn [res_bind] in Hrun.
  pose proof Sh' as Sh''. apply has_shape_iff in Sh''.
  destruct Sh'' as (Bh' & Wh' & _).
  split; [|split].
  - intros Se.
    destruct (spec_posterior_shape S A H hid self Hinit h' te b Sh' Se)
      as (pm & psd & Eq & Spm & Spsd).
    rewrite Eq in Hrun. cbn [res_bind] in Hrun.
    destruct Hrun as (dp & dq & r & w' & Hf & _ & _ & _ & _ & _ & _ & Hpts).
    exists dp, dq, r, w', m, sd, pm, psd, h'.
    split; [exact Hf|].
    repeat match goal with |- _ /\ _ => split end; try tauto; auto.
  - intros Be Hw.
    rewrite (spec_posterior_rejects_features h' te) in Hrun
      by (rewrite ?Wh'; lia).
    cbn [res_bind] in Hrun. now rewrite Wh' in Hrun.
  - intros Be.
    rewrite (spec_posterior_rejects_batch h' te) in Hrun by congruence.
    cbn [res_bind] in Hrun. now rewrite Bh' in Hrun.
Qed.

End RSSMContracts.

Lemma posterior_shape_contract_witness :
  (exists d w' m sd,
      RecurrentStateSpaceModel.posterior (Sample.rssm 1 1 1 1) 2%nat 3%nat
        (Sample.world 2 1 1 1) = Ok (d, w') /\
      points_to w' (loc d) m /\ points_to w' (scale d) sd /\
      has_shape m 2 1 = true /\ has_shape sd 2 1 = true) /\
  RecurrentStateSpaceModel.posterior (Sample.rssm 1 1 1 1) 2%nat 0%nat
    (Sample.world 2 1 1 1) = Err (DimMismatch 1025 2).
Proof.
  split.
  - apply (posterior_shape_contract 1 1 1 1 (Sample.rssm 1 1 1 1) eq_refl
             (Sample.world 2 1 1 1) 2%nat 3%nat
             (Sample.zeros 2 1) (Sample.zeros 2 1024) eq_refl eq_refl);
      reflexivity.
  - apply (posterior_shape_contract 1 1 1 1 (Sample.rssm 1 1 1 1) eq_refl
             (Sample.world 2 1 1 1) 2%nat 0%nat
             (Sample.zeros 2 1) (Sample.zeros 2 1) eq_refl eq_refl);
      [reflexivity | intros Hneq; vm_compute in Hneq; discriminate Hneq].
Defined.

Lemma prior_batch_errors_witness :
  RecurrentStateSpaceModel.prior (Sample.rssm 1 1 1 1) 0%nat 1%nat 2%nat
    (mkWorld [Sample.zeros 2 1; Sample.zeros 3 1; Sample.zeros 2 1]
       (fun _ => 0))
  = Err (BatchMismatch 2 3) /\
  RecurrentStateSpaceModel.prior (Sample.rssm 1 1 1 1) 0%nat 2%nat 1%nat
    (mkWorld [Sample.zeros 2 1; Sample.zeros 3 1; Sample.zeros 2 1]
       (fun _ => 0))
  = Err (BatchMismatch 2 3).
Proof.
  split.
  - apply (prior_batch_errors 1 1 1 1 (Sample.rssm 1 1 1 1) eq_refl
             (mkWorld [Sample.zeros 2 1; Sample.zeros 3 1; Sample.zeros 2 1]
                (fun _ => 0)) 0%nat 1%nat 2%nat
             (Sample.zeros 2 1) (Sample.zeros 3 1) (Sample.zeros 2 1)
             eq_refl eq_refl eq_refl).
    intros Hneq; vm_compute in Hneq; discriminate Hneq.
  - apply (prior_batch_errors 1 1 1 1 (Sample.rssm 1 1 1 1) eq_refl
             (mkWorld [Sample.zeros 2 1; Sample.zeros 3 1; Sample.zeros 2 1]
                (fun _ => 0)) 0%nat 2%nat 1%nat
             (Sample.zeros 2 1) (Sample.zeros 2 1) (Sample.zeros 3 1)
             eq_refl eq_refl eq_refl);
      [reflexivity | reflexivity | intros Hneq; vm_compute in Hneq; discriminate Hneq].
Defined.

Lemma forward_shape_contract_witness :
  (exists dp dq r w' m sd pm psd h',
      RecurrentStateSpaceModel.forward (Sample.rssm 1 1 1 1)
        0%nat 1%nat 2%nat 3%nat (Sample.world 2 1 1 1)
      = Ok ((dp, dq, r), w') /\
      points_to w' (loc dp) m /\ points_to w' (scale dp) sd /\
      points_to w' (loc dq) pm /\ points_to w' (scale dq) psd /\
      points_to w' r h' /\
      has_shape m 2 1 = true /\ has_shape sd 2 1 = true /\
      has_shape pm 2 1 = true /\ has_shape psd 2 1 = true /\
      has_shape h' 2 1 = true) /\
  RecurrentStateSpaceModel.forward (Sample.rssm 1 1 1 1)
    0%nat 1%nat 2%nat 0%nat (Sample.world 2 1 1 1)
  = Err (DimMismatch 1025 2).
Proof.
  split.
  - apply (forward_shape_contract 1 1 1 1 (Sample.rssm 1 1 1 1) eq_refl
             (Sample.world 2 1 1 1) 0%nat 1%nat 2%nat 3%nat
             (Sample.zeros 2 1) (Sample.zeros 2 1) (Sample.zeros 2 1)
             (Sample.zeros 2 1024) 2%nat);
      reflexivity.
  - apply (forward_shape_contract 1 1 1 1 (Sample.rssm 1 1 1 1) eq_refl
             (Sample.world 2 1 1 1) 0%nat 1%nat 2%nat 0%nat
             (Sample.zeros 2 1) (Sample.zeros 2 1) (Sample.zeros 2 1)
             (Sample.zeros 2 1) 2%nat);
      try reflexivity.
    intros Hneq; vm_compute in Hneq; discriminate Hneq.
Defined.

(** ** The deterministic state stays bounded *)








(** ** The action model: bounds, initial standard deviation, shapes *)




(** [np.log(np.exp(a) - 1)] is the value at which softplus returns [a], as
    long as [a] does not exceed the threshold of [F.softplus]. *)
Lemma softplus_inverse a :
  0 < a <= 20 -> F_softplus (ln (exp a - 1)) = a.
Proof.
  intros [Hpos Hle].
  assert (H1 : 1 < exp a) by (rewrite <- exp_0; now apply exp_increasing).
  assert (Hlt : ln (exp a - 1) < a).
  { rewrite <- (ln_exp a) at 2. apply ln_increasing; lra. }
  unfold F_softplus. destruct (Rlt_dec 20 (ln (exp a - 1))); [lra|].
  rewrite exp_ln by lra.
  replace (1 + (exp a - 1)) with (exp a) by lra. apply ln_exp.
Qed.

Section ActionContracts.

Import ActionModel.

Variables (S Hd A hid : nat) (arg : R) (self : t).
Hypothesis Hinit : init S Hd A hid arg self.

Lemma spec_action_accepts ts th b :
  batch ts = b -> batch th = b -> (width ts + width th = S + Hd)%nat ->
  exists hidden raw_mean raw,
    Spec.action_hidden self ts th = Ok hidden /\
    Linear.forward (fc_mean self) hidden = Ok raw_mean /\
    Linear.forward (fc_stddev self) hidden = Ok raw /\
    has_shape raw_mean b A = true /\ has_shape raw b A = true /\
    Spec.action_distribution self ts th
    = Ok (T.map (fun v => 5 * tanh (v / 5)) raw_mean,
          T.map (fun v => F_softplus (v + init_stddev self) + min_stddev self)
            raw).
Proof.
  intros Bs Bh Hw.
  destruct Hinit as (L1 & L2 & L3 & L4 & Lm & Ls & _).
  unfold Spec.action_distribution, Spec.action_hidden.
  destruct (cat_accepts _ _ _ Bs Bh) as (x & -> & Bx & Wx); cbn [res_bind].
  rewrite Hw in Wx.
  destruct (linear_accepts _ _ _ _ _ L1 Bx Wx) as (y1 & -> & Hy1);
    cbn [res_bind].
  destruct (linear_shape _ _ _ _ _ L2 (map_shape (act self) _ _ _ Hy1))
    as (y2 & -> & Hy2); cbn [res_bind].
  destruct (linear_shape _ _ _ _ _ L3 (map_shape (act self) _ _ _ Hy2))
    as (y3 & -> & Hy3); cbn [res_bind].
  destruct (linear_shape _ _ _ _ _ L4 (map_shape (act self) _ _ _ Hy3))
    as (y4 & -> & Hy4); cbn [res_bind].
  pose proof (map_shape (act self) _ _ _ Hy4) as Hhid.
  destruct (linear_shape _ _ _ _ _ Lm Hhid) as (rm & Em & Hrm).
  destruct (linear_shape _ _ _ _ _ Ls Hhid) as (rs & Es & Hrs).
  exists (T.map (act self) y4), rm, rs.
  rewrite Em, Es; cbn [res_bind]. auto 10.
Qed.

Lemma spec_action_rejects_features ts th :
  batch ts = batch th -> (width ts + width th <> S + Hd)%nat ->
  Spec.action_distribution self ts th
  = Err (DimMismatch (S + Hd) (width ts + width th)).
Proof.
  intros Hb Hw. destruct Hinit as (L1 & _).
  unfold Spec.action_distribution, Spec.action_hidden.
  destruct (cat_accepts ts th _ eq_refl (eq_sym Hb)) as (x & -> & _ & Wx).
  cbn [res_bind]. rewrite <- Wx in *.
  now rewrite (linear_rejects _ _ _ _ L1 Hw).
Qed.

Lemma spec_action_rejects_batch ts th :
  batch ts <> batch th ->
  Spec.action_distribution self ts th
  = Err (BatchMismatch (batch ts) (batch th)).
Proof.
  intros Hb. unfold Spec.action_distribution, Spec.action_hidden.
  now rewrite (cat_rejects _ _ Hb).
Qed.

(** The run of [forward] when the distribution cannot be computed. *)
Lemma forward_fails_with_distribution w s h ts th training err :
  points_to w s ts -> points_to w h th ->
  Spec.action_distribution self ts th = Err err ->
  forward self s h training w = Err err.
Proof.
  intros Ps Ph E. destruct training.
  - pose proof (forward_train_run self w s h ts th Ps Ph) as Hrun.
    now rewrite E in Hrun.
  - pose proof (forward_eval_run self w s h ts th Ps Ph) as Hrun.
    unfold Spec.mode_action in Hrun. now rewrite E in Hrun.
Qed.


(** X6.  The stored [init_stddev] undoes the softplus: for an argument
    0 < init_stddev <= 20 of the constructor, an entry of the standard
    deviation whose raw network output is 0 equals
    init_stddev + min_stddev. *)
Theorem initial_stddev w s h ts th b :
  0 < arg <= 20 ->
  points_to w s ts -> points_to w h th ->
  has_shape ts b S = true -> has_shape th b Hd = true ->
  exists hidden raw d w' sd,
    Spec.action_hidden self ts th = Ok hidden /\
    Linear.forward (fc_stddev self) hidden = Ok raw /\
    distribution self s h w = Ok (d, w') /\
    points_to w' (scale d) sd /\
    sd = T.map (fun v => F_softplus (v + init_stddev self) + min_stddev self)
           raw /\
    F_softplus (0 + init_stddev self) + min_stddev self
    = arg + min_stddev self.
Proof.
  intros Harg Ps Ph Ss Sh.
  destruct (spec_action_shape S Hd A hid arg self Hinit ts th b Ss Sh)
    as (hidden & rm & rs & Eh & _ & Es & _ & _ & Ed).
  pose proof (distribution_run self w s h ts th Ps Ph) as Hrun.
  rewrite Ed in Hrun.
  destruct Hrun as (d & w' & Hf & _ & _ & _ & _ & Psd).
  eexists hidden, rs, d, w', _. repeat split; eauto.
  destruct Hinit as (_ & _ & _ & _ & _ & _ & ->).
  rewrite Rplus_0_l, softplus_inverse by exact Harg. reflexivity.
Qed.

(** X7.  [ActionModel.forward] checks the batch sizes and the sum of the
    widths of its two inputs, in either mode: when the widths add up to
    S + H it returns an action of shape (b, A); when they add up to
    something else it raises a dimension error naming S + H and the actual
    sum; when the batch sizes differ the concatenation raises. *)
Theorem action_shape_contract w s h ts th (training : bool) :
  points_to w s ts -> points_to w h th ->
  (batch ts = batch th -> (width ts + width th = S + Hd)%nat ->
   exists r w' a,
     forward self s h training w = Ok (r, w') /\
     points_to w' r a /\ has_shape a (batch ts) A = true) /\
  (batch ts = batch th -> (width ts + width th <> S + Hd)%nat ->
   forward self s h training w
   = Err (DimMismatch (S + Hd) (width ts + width th))) /\
  (batch ts <> batch th ->
   forward self s h training w
   = Err (BatchMismatch (batch ts) (batch th))).
Proof.
  intros Ps Ph. split; [|split].
  - intros Hb Hw.
    destruct (spec_action_accepts ts th (batch ts) eq_refl (eq_sym Hb) Hw)
      as (hidden & rm & rs & _ & _ & _ & Hrm & Hrs & Ed).
    pose proof (map_shape (fun v => 5 * tanh (v / 5)) _ _ _ Hrm) as Sm.
    pose proof (map_shape
                  (fun v => F_softplus (v + init_stddev self)
                            + min_stddev self) _ _ _ Hrs) as Ssd.
    destruct training.
    + pose proof (forward_train_run self w s h ts th Ps Ph) as Hrun.
      unfold Spec.sample_action in Hrun. rewrite Ed in Hrun.
      cbn [res_bind fst snd] in Hrun.
      pose proof Sm as Sm'. apply has_shape_iff in Sm'.
      destruct Sm' as (Bm & Wm & _). rewrite Bm, Wm in Hrun.
      destruct (map2_shape Rmult _ _ _ _
                  (draw_shape (batch ts) A (gen w)) Ssd)
        as (noise & En & Sn).
      destruct (map2_shape Rplus _ _ _ _ Sm Sn) as (sample & Esm & Ssm).
      rewrite En in Hrun; cbn [res_bind] in Hrun.
      rewrite Esm in Hrun; cbn [res_bind] in Hrun.
      destruct Hrun as (r & w' & Hf & _ & _ & _ & Pr).
      exists r, w', (T.map tanh sample). repeat split; auto.
      now apply map_shape.
    + pose proof (forward_eval_run self w s h ts th Ps Ph) as Hrun.
      unfold Spec.mode_action in Hrun. rewrite Ed in Hrun.
      cbn [res_bind fst] in Hrun.
      destruct Hrun as (r & w' & Hf & _ & _ & Pr).
      eexists r, w', _. repeat split; eauto. now apply map_shape.
  - intros Hb Hw.
    eapply forward_fails_with_distribution; eauto.
    now apply spec_action_rejects_features.
  - intros Hb.
    eapply forward_fails_with_distribution; eauto.
    now apply spec_action_rejects_batch.
Qed.

End ActionContracts.

Lemma sample_policy_init :
  ActionModel.init 1 1 1 1 5 (Sample.policy 1 1 1 1).
Proof. repeat split; reflexivity. Qed.


Lemma initial_stddev_witness :
  F_softplus (0 + ActionModel.init_stddev (Sample.policy 1 1 1 1))
  + ActionModel.min_stddev (Sample.policy 1 1 1 1)
  = 5 + ActionModel.min_stddev (Sample.policy 1 1 1 1).
Proof.
  destruct (initial_stddev 1 1 1 1 5 (Sample.policy 1 1 1 1)
              sample_policy_init (Sample.world 2 1 1 1) 0%nat 2%nat
              (Sample.zeros 2 1) (Sample.zeros 2 1) 2%nat)
    as (hidden & raw & d & w' & sd & _ & _ & _ & _ & _ & Hsd);
    try reflexivity.
  - lra.
  - exact Hsd.
Defined.

Lemma action_shape_contract_witness :
  (exists r w' a,
      ActionModel.forward (Sample.policy 1 1 1 1) 0%nat 2%nat true
        (Sample.world 2 1 1 1) = Ok (r, w') /\
      points_to w' r a /\ has_shape a 2 1 = true) /\
  ActionModel.forward (Sample.policy 1 1 1 1) 0%nat 3%nat true
    (Sample.world 2 1 1 1) = Err (DimMismatch 2 1025).
Proof.
  split.
  - apply (action_shape_contract 1 1 1 1 5 (Sample.policy 1 1 1 1)
             sample_policy_init (Sample.world 2 1 1 1) 0%nat 2%nat
             (Sample.zeros 2 1) (Sample.zeros 2 1) true eq_refl eq_refl);
      reflexivity.
  - apply (action_shape_contract 1 1 1 1 5 (Sample.policy 1 1 1 1)
             sample_policy_init (Sample.world 2 1 1 1) 0%nat 3%nat
             (Sample.zeros 2 1) (Sample.zeros 2 1024) true eq_refl eq_refl);
      [reflexivity | intros Hneq; vm_compute in Hneq; discriminate Hneq].
Defined.

(** ** The action model: rows of a batch *)



Section ActionRows.

Import ActionModel.

Variable self : t.




End ActionRows.

Section ActionBatches.

Import ActionModel.

Variables (S Hd A hid : nat) (arg : R) (self : t).
Hypothesis Hinit : init S Hd A hid arg self.


End ActionBatches.


(** ** The action model and the store *)

Lemma heap_grows_points_to w w' more r t :
  heap w' = heap w ++ more -> points_to w r t -> points_to w' r t.
Proof.
  intros Hheap H. unfold points_to in *. rewrite Hheap.
  rewrite nth_error_app1; auto. apply nth_error_Some. congruence.
Qed.

(** X9.  [ActionModel.forward] does not mutate its inputs: in either mode
    the store is only extended, state and deterministic state hold the
    values they held before, and the returned action is newly allocated;
    in evaluation mode the random generator is left as it was. *)
Theorem action_leaves_inputs_unchanged self w s h ts th (training : bool) :
  points_to w s ts -> points_to w h th ->
  forall r w',
    ActionModel.forward self s h training w = Ok (r, w') ->
    (exists more, heap w' = heap w ++ more) /\
    points_to w' s ts /\ points_to w' h th /\ fresh w r /\
    (training = false -> gen w' = gen w).
Proof.
  intros Ps Ph r w' Hrun. destruct training.
  - pose proof (forward_train_run self w s h ts th Ps Ph) as R.
    destruct (Spec.action_distribution self ts th) as [[mean sd]|err];
      [|congruence].
    destruct (Spec.sample_action self ts th (gen w)) as [a|err];
      [|congruence].
    destruct R as (r0 & w0 & E & (more & Hheap) & _ & Hfresh & _).
    rewrite E in Hrun. injection Hrun as <- <-.
    repeat split; eauto using heap_grows_points_to. discriminate.
  - pose proof (forward_eval_run self w s h ts th Ps Ph) as R.
    destruct (Spec.mode_action self ts th) as [a|err]; [|congruence].
    destruct R as (r0 & w0 & E & ((more & Hheap) & Hgen) & Hfresh & _).
    rewrite E in Hrun. injection Hrun as <- <-.
    repeat split; eauto using heap_grows_points_to.
Qed.

Lemma action_leaves_inputs_unchanged_witness :
  exists r w',
    ActionModel.forward (Sample.policy 1 1 1 1) 0%nat 2%nat true
      (Sample.world 1 1 1 1) = Ok (r, w') /\
    points_to w' 0%nat (Sample.zeros 1 1) /\
    points_to w' 2%nat (Sample.zeros 1 1) /\
    fresh (Sample.world 1 1 1 1) r.
Proof.
  destruct (ActionModel.forward (Sample.policy 1 1 1 1) 0%nat 2%nat true
              (Sample.world 1 1 1 1)) as [[r w']|err] eqn:E.
  - exists r, w'. split; [reflexivity|].
    destruct (action_leaves_inputs_unchanged (Sample.policy 1 1 1 1)
                (Sample.world 1 1 1 1) 0%nat 2%nat
                (Sample.zeros 1 1) (Sample.zeros 1 1) true
                eq_refl eq_refl r w' E) as (_ & Hs & Hh & Hr & _).
    auto.
  - exfalso. revert E. evaluate. discriminate.
Defined.

(** ** The reward model and the value model *)

Section ScalarHeads.

Variables (rm : RewardModel.t) (vm : ValueModel.t).

Lemma reward_run w s h ts th :
  points_to w s ts -> points_to w h th ->
  match scalar_head (RewardModel.fc1 rm) (RewardModel.fc2 rm)
          (RewardModel.fc3 rm) (RewardModel.fc4 rm) (RewardModel.act rm)
          ts th
  with
  | Err err => RewardModel.forward rm s h w = Err err
  | Ok reward =>
      exists r w',
        RewardModel.forward rm s h w = Ok (r, w') /\
        extends w w' /\ fresh w r /\ points_to w' r reward
  end.
Proof.
  intros Ps Ph. unfold RewardModel.forward, scalar_head. expose_ops.
  do 7 run_call. run_call.
  eexists _, _. split; [reflexivity|].
  split; [eauto 20 with store|].
  split; [solve_fresh | eauto 20 with store].
Qed.

Lemma value_run w s h ts th :
  points_to w s ts -> points_to w h th ->
  match scalar_head (ValueModel.fc1 vm) (ValueModel.fc2 vm)
          (ValueModel.fc3 vm) (ValueModel.fc4 vm) (ValueModel.act vm)
          ts th
  with
  | Err err => ValueModel.forward vm s h w = Err err
  | Ok value =>
      exists r w',
        ValueModel.forward vm s h w = Ok (r, w') /\
        extends w w' /\ fresh w r /\ points_to w' r value
  end.
Proof.
  intros Ps Ph. unfold ValueModel.forward, scalar_head. expose_ops.
  do 7 run_call. run_call.
  eexists _, _. split; [reflexivity|].
  split; [eauto 20 with store|].
  split; [solve_fresh | eauto 20 with store].
Qed.

End ScalarHeads.

Section ScalarHeadValues.

Variables (S H hid : nat) (l1 l2 l3 l4 : Linear.t) (act : R -> R).
Hypothesis I1 : Linear.init (S + H) hid l1 = true.
Hypothesis I2 : Linear.init hid hid l2 = true.
Hypothesis I3 : Linear.init hid hid l3 = true.
Hypothesis I4 : Linear.init hid 1 l4 = true.

Lemma scalar_head_accepts ts th b :
  batch ts = b -> batch th = b -> (width ts + width th = S + H)%nat ->
  exists y, scalar_head l1 l2 l3 l4 act ts th = Ok y /\
            has_shape y b 1 = true.
Proof.
  intros Bs Bh Hw. unfold scalar_head.
  destruct (cat_accepts _ _ _ Bs Bh) as (x & -> & Bx & Wx); cbn [res_bind].
  rewrite Hw in Wx.
  destruct (linear_accepts _ _ _ _ _ I1 Bx Wx) as (y1 & -> & Hy1);
    cbn [res_bind].
  destruct (linear_shape _ _ _ _ _ I2 (map_shape act _ _ _ Hy1))
    as (y2 & -> & Hy2); cbn [res_bind].
  destruct (linear_shape _ _ _ _ _ I3 (map_shape act _ _ _ Hy2))
    as (y3 & -> & Hy3); cbn [res_bind].
  exact (linear_shape _ _ _ _ _ I4 (map_shape act _ _ _ Hy3)).
Qed.

Lemma scalar_head_rejects_features ts th :
  batch ts = batch th -> (width ts + width th <> S + H)%nat ->
  scalar_head l1 l2 l3 l4 act ts th
  = Err (DimMismatch (S + H) (width ts + width th)).
Proof.
  intros Hb Hw. unfold scalar_head.
  destruct (cat_accepts ts th _ eq_refl (eq_sym Hb)) as (x & -> & _ & Wx).
  cbn [res_bind]. rewrite <- Wx in *.
  now rewrite (linear_rejects _ _ _ _ I1 Hw).
Qed.

End ScalarHeadValues.

Lemma scalar_head_rejects_batch l1 l2 l3 l4 act ts th :
  batch ts <> batch th ->
  scalar_head l1 l2 l3 l4 act ts th
  = Err (BatchMismatch (batch ts) (batch th)).
Proof. intros Hb. unfold scalar_head. now rewrite (cat_rejects _ _ Hb). Qed.


Lemma reward_init_parts S H hid rm :
  RewardModel.init S H hid rm = true ->
  Linear.init (S + H) hid (RewardModel.fc1 rm) = true /\
  Linear.init hid hid (RewardModel.fc2 rm) = true /\
  Linear.init hid hid (RewardModel.fc3 rm) = true /\
  Linear.init hid 1 (RewardModel.fc4 rm) = true.
Proof.
  unfold RewardModel.init. rewrite !andb_true_iff. tauto.
Qed.

Lemma value_init_parts S H hid vm :
  ValueModel.init S H hid vm = true ->
  Linear.init (S + H) hid (ValueModel.fc1 vm) = true /\
  Linear.init hid hid (ValueModel.fc2 vm) = true /\
  Linear.init hid hid (ValueModel.fc3 vm) = true /\
  Linear.init hid 1 (ValueModel.fc4 vm) = true.
Proof.
  unfold ValueModel.init. rewrite !andb_true_iff. tauto.
Qed.

(** X10.  [RewardModel.forward] checks the batch sizes and the sum of the
    widths of its two inputs: when the widths add up to S + H it returns
    one reward per row, a tensor of shape (b, 1); when they add up to
    something else it raises a dimension error naming S + H and the actual
    sum; when the batch sizes differ the concatenation raises. *)
Theorem reward_shape_contract S H hid rm w s h ts th :
  RewardModel.init S H hid rm = true ->
  points_to w s ts -> points_to w h th ->
  (batch ts = batch th -> (width ts + width th = S + H)%nat ->
   exists r w' reward,
     RewardModel.forward rm s h w = Ok (r, w') /\
     points_to w' r reward /\ has_shape reward (batch ts) 1 = true) /\
  (batch ts = batch th -> (width ts + width th <> S + H)%nat ->
   RewardModel.forward rm s h w
   = Err (DimMismatch (S + H) (width ts + width th))) /\
  (batch ts <> batch th ->
   RewardModel.forward rm s h w
   = Err (BatchMismatch (batch ts) (batch th))).
Proof.
  intros Hinit Ps Ph.
  destruct (reward_init_parts _ _ _ _ Hinit) as (I1 & I2 & I3 & I4).
  pose proof (reward_run rm w s h ts th Ps Ph) as Hrun.
  split; [|split].
  - intros Hb Hw.
    destruct (scalar_head_accepts S H hid _ _ _ _ (RewardModel.act rm)
                I1 I2 I3 I4 ts th (batch ts) eq_refl (eq_sym Hb) Hw)
      as (y & E & Sy).
    rewrite E in Hrun. destruct Hrun as (r & w' & Hf & _ & _ & Pr).
    exists r, w', y. auto.
  - intros Hb Hw.
    now rewrite (scalar_head_rejects_features S H hid _ _ _ _ _ I1 ts th
                   Hb Hw) in Hrun.
  - intros Hb. now rewrite (scalar_head_rejects_batch _ _ _ _ _ ts th Hb)
      in Hrun.
Qed.

Lemma reward_shape_contract_witness :
  (exists r w' reward,
      RewardModel.forward (Fixture.reward 1 1 2) 0%nat 2%nat
        (Sample.world 3 1 1 1) = Ok (r, w') /\
      points_to w' r reward /\ has_shape reward 3 1 = true) /\
  RewardModel.forward (Fixture.reward 1 1 2) 0%nat 3%nat
    (Sample.world 3 1 1 1) = Err (DimMismatch 2 1025).
Proof.
  split.
  - apply (reward_shape_contract 1 1 2 (Fixture.reward 1 1 2)
             (Sample.world 3 1 1 1) 0%nat 2%nat
             (Sample.zeros 3 1) (Sample.zeros 3 1)
             eq_refl eq_refl eq_refl);
      reflexivity.
  - apply (reward_shape_contract 1 1 2 (Fixture.reward 1 1 2)
             (Sample.world 3 1 1 1) 0%nat 3%nat
             (Sample.zeros 3 1) (Sample.zeros 3 1024)
             eq_refl eq_refl eq_refl);
      [reflexivity | intros Hneq; vm_compute in Hneq; discriminate Hneq].
Defined.

(** X11.  [ValueModel.forward] checks the batch sizes and the sum of the
    widths of its two inputs: when the widths add up to S + H it returns
    one state value per row, a tensor of shape (b, 1); when they add up to
    something else it raises a dimension error naming S + H and the actual
    sum; when the batch sizes differ the concatenation raises. *)
Theorem value_shape_contract S H hid vm w s h ts th :
  ValueModel.init S H hid vm = true ->
  points_to w s ts -> points_to w h th ->
  (batch ts = batch th -> (width ts + width th = S + H)%nat ->
   exists r w' value,
     ValueModel.forward vm s h w = Ok (r, w') /\
     points_to w' r value /\ has_shape value (batch ts) 1 = true) /\
  (batch ts = batch th -> (width ts + width th <> S + H)%nat ->
   ValueModel.forward vm s h w
   = Err (DimMismatch (S + H) (width ts + width th))) /\
  (batch ts <> batch th ->
   ValueModel.forward vm s h w
   = Err (BatchMismatch (batch ts) (batch th))).
Proof.
  intros Hinit Ps Ph.
  destruct (value_init_parts _ _ _ _ Hinit) as (I1 & I2 & I3 & I4).
  pose proof (value_run vm w s h ts th Ps Ph) as Hrun.
  split; [|split].
  - intros Hb Hw.
    destruct (scalar_head_accepts S H hid _ _ _ _ (ValueModel.act vm)
                I1 I2 I3 I4 ts th (batch ts) eq_refl (eq_sym Hb) Hw)
      as (y & E & Sy).
    rewrite E in Hrun. destruct Hrun as (r & w' & Hf & _ & _ & Pr).
    exists r, w', y. auto.
  - intros Hb Hw.
    now rewrite (scalar_head_rejects_features S H hid _ _ _ _ _ I1 ts th
                   Hb Hw) in Hrun.
  - intros Hb. now rewrite (scalar_head_rejects_batch _ _ _ _ _ ts th Hb)
      in Hrun.
Qed.

Lemma value_shape_contract_witness :
  (exists r w' value,
      ValueModel.forward (Fixture.value 1 1 2) 0%nat 2%nat
        (Sample.world 3 1 1 1) = Ok (r, w') /\
      points_to w' r value /\ has_shape value 3 1 = true) /\
  ValueModel.forward (Fixture.value 1 1 2) 0%nat 1%nat
    (mkWorld [Sample.zeros 2 1; Sample.zeros 3 1] (fun _ => 0))
  = Err (BatchMismatch 2 3).
Proof.
  split.
  - apply (value_shape_contract 1 1 2 (Fixture.value 1 1 2)
             (Sample.world 3 1 1 1) 0%nat 2%nat
             (Sample.zeros 3 1) (Sample.zeros 3 1)
             eq_refl eq_refl eq_refl);
      reflexivity.
  - apply (value_shape_contract 1 1 2 (Fixture.value 1 1 2)
             (mkWorld [Sample.zeros 2 1; Sample.zeros 3 1] (fun _ => 0))
             0%nat 1%nat (Sample.zeros 2 1) (Sample.zeros 3 1)
             eq_refl eq_refl eq_refl).
    intros Hneq; vm_compute in Hneq; discriminate Hneq.
Defined.



(** X13.  The reward and value models do not mutate their inputs and use
    no randomness: after [forward] the store is only extended, state and
    deterministic state hold the values they held before, the returned
    tensor is newly allocated and the random generator is as it was. *)
Theorem reward_value_leave_inputs_unchanged rm vm w s h ts th :
  points_to w s ts -> points_to w h th ->
  (forall r w',
      RewardModel.forward rm s h w = Ok (r, w') ->
      extends w w' /\ points_to w' s ts /\ points_to w' h th /\ fresh w r) /\
  (forall r w',
      ValueModel.forward vm s h w = Ok (r, w') ->
      extends w w' /\ points_to w' s ts /\ points_to w' h th /\ fresh w r).
Proof.
  intros Ps Ph. split; intros r w' Hrun.
  - pose proof (reward_run rm w s h ts th Ps Ph) as R.
    destruct (scalar_head _ _ _ _ _ ts th) as [y|err]; [|congruence].
    destruct R as (r0 & w0 & E & Hext & Hfresh & _).
    rewrite E in Hrun. injection Hrun as <- <-.
    repeat match goal with |- _ /\ _ => split end;
      eauto using extends_points_to.
  - pose proof (value_run vm w s h ts th Ps Ph) as R.
    destruct (scalar_head _ _ _ _ _ ts th) as [y|err]; [|congruence].
    destruct R as (r0 & w0 & E & Hext & Hfresh & _).
    rewrite E in Hrun. injection Hrun as <- <-.
    repeat match goal with |- _ /\ _ => split end;
      eauto using extends_points_to.
Qed.

Lemma reward_value_leave_inputs_unchanged_witness :
  exists r w',
    RewardModel.forward (Fixture.reward 1 1 2) 0%nat 2%nat
      (Sample.world 1 1 1 1) = Ok (r, w') /\
    gen w' = gen (Sample.world 1 1 1 1) /\
    points_to w' 0%nat (Sample.zeros 1 1) /\
    fresh (Sample.world 1 1 1 1) r.
Proof.
  destruct (RewardModel.forward (Fixture.reward 1 1 2) 0%nat 2%nat
              (Sample.world 1 1 1 1)) as [[r w']|err] eqn:E.
  - exists r, w'. split; [reflexivity|].
    destruct (reward_value_leave_inputs_unchanged
                (Fixture.reward 1 1 2) (Fixture.value 1 1 2)
                (Sample.world 1 1 1 1) 0%nat 2%nat
                (Sample.zeros 1 1) (Sample.zeros 1 1) eq_refl eq_refl)
      as (Hrew & _).
    destruct (Hrew r w' E) as ((_ & Hg) & Hs & _ & Hf). auto.
  - exfalso. revert E. evaluate. discriminate.
Defined.

(** ** Shapes in the decoder *)

Lemma chunk_all_length n count l :
  length l = (count * n)%nat ->
  Forall (fun r => length r = n) (chunk n count l).
Proof. intros Hl. now destruct (chunk_shape n count l Hl). Qed.

Lemma view4_shape b c h w n x :
  has_shape x b n = true -> n = (c * (h * w))%nat ->
  exists y, view4 b c h w x = Ok y /\ has_shape4 y b c h w = true.
Proof.
  rewrite has_shape_iff. intros (Bx & Wx & Rx) Hn.
  unfold view4. rewrite Bx, Wx, Hn, Nat.eqb_refl.
  eexists; split; [reflexivity|].
  assert (Hflat : length (concat (rows x)) = (b * (c * (h * w)))%nat).
  { rewrite (length_concat_uniform n _ Rx). unfold batch in Bx.
    now rewrite Bx, Hn. }
  destruct (chunk_shape _ _ _ Hflat) as (Hlen & Hall).
  apply has_shape4_iff; unfold batch4; simpl.
  rewrite length_map. repeat split; auto.
  rewrite Forall_map. eapply Forall_impl; [|exact Hall].
  intros piece Hpiece. apply image_shape_iff.
  destruct (chunk_shape (h * w) c piece Hpiece) as (Hc & Hplanes).
  rewrite length_map. split; [exact Hc|].
  rewrite Forall_map. eapply Forall_impl; [|exact Hplanes].
  intros q Hq. apply plane_shape_iff.
  apply (chunk_shape w h q Hq).
Qed.

Lemma ConvTranspose2d_init_iff i o k s c :
  ConvTranspose2d.init i o k s c = true <->
  ConvTranspose2d.in_channels c = i /\ ConvTranspose2d.out_channels c = o /\
  ConvTranspose2d.kernel_size c = k /\ ConvTranspose2d.stride c = s /\
  length (ConvTranspose2d.weight c) = i /\
  length (ConvTranspose2d.bias c) = o /\
  Forall (fun f => image_shape o k k f = true) (ConvTranspose2d.weight c).
Proof.
  unfold ConvTranspose2d.init.
  rewrite !andb_true_iff, !Nat.eqb_eq, forallb_forall, Forall_forall. tauto.
Qed.

Lemma deconv_image_shape c o oh ow input :
  ConvTranspose2d.out_channels c = o ->
  length (ConvTranspose2d.bias c) = o ->
  image_shape o oh ow (ConvTranspose2d.deconv_image c oh ow input) = true.
Proof.
  intros Ho Hb. apply image_shape_iff. unfold ConvTranspose2d.deconv_image.
  rewrite length_map, length_combine, length_seq, Ho, Hb. split; [lia|].
  rewrite Forall_map, Forall_forall. intros ob _.
  apply plane_shape_iff. rewrite length_map, length_seq. split; auto.
  rewrite Forall_map, Forall_forall. intros y _.
  now rewrite length_map, length_seq.
Qed.

Lemma deconv_shape i o k s c x b h w :
  ConvTranspose2d.init i o k s c = true -> has_shape4 x b i h w = true ->
  (0 < h)%nat -> (0 < w)%nat ->
  exists y,
    ConvTranspose2d.forward c x = Ok y /\
    has_shape4 y b o (ConvTranspose2d.out_extent k s h)
      (ConvTranspose2d.out_extent k s w) = true.
Proof.
  rewrite ConvTranspose2d_init_iff, has_shape4_iff.
  intros (Hi & Ho & Hk & Hs & HW & HB & _) (Bx & Cx & Hx & Wx & _) Hh Hw.
  unfold ConvTranspose2d.forward.
  rewrite Cx, Hi, Nat.eqb_refl, Hx, Wx, Hk, Hs; simpl.
  destruct (Nat.eqb_spec h 0); [lia|].
  destruct (Nat.eqb_spec w 0); [lia|].
  eexists; split; [reflexivity|].
  apply has_shape4_iff; unfold batch4 in *; simpl.
  rewrite length_map. repeat split; auto.
  rewrite Forall_map, Forall_forall. intros img _.
  now apply deconv_image_shape.
Qed.

Lemma deconv_rejects_channels c x :
  channels x <> ConvTranspose2d.in_channels c ->
  ConvTranspose2d.forward c x
  = Err (DimMismatch (ConvTranspose2d.in_channels c) (channels x)).
Proof.
  intros Hc. unfold ConvTranspose2d.forward.
  destruct (Nat.eqb_spec (channels x) (ConvTranspose2d.in_channels c));
    [contradiction | reflexivity].
Qed.

Section DecoderShapes.

Import ObservationModel.

Variables (S H : nat) (self : t).
Hypothesis Hinit : init S H self = true.

Lemma decoder_init_parts :
  Linear.init (S + H) 1024 (fc self) = true /\
  ConvTranspose2d.init 1024 128 5 2 (dc1 self) = true /\
  ConvTranspose2d.init 128 64 5 2 (dc2 self) = true /\
  ConvTranspose2d.init 64 32 6 2 (dc3 self) = true /\
  ConvTranspose2d.init 32 3 6 2 (dc4 self) = true.
Proof.
  unfold init in Hinit. rewrite !andb_true_iff in Hinit. tauto.
Qed.

(** X14.  The decoder on a state and a deterministic state of one batch
    size b whose widths add up to S + H returns an image batch of shape
    (b, 3, 64, 64), the shape the encoder takes: the linear layer gives
    1024 features, viewed as 1024 channels of extent 1, and the four
    transposed convolutions give extents 5, 13, 30 and 64.  When the
    widths add up to something else the linear layer raises a dimension
    error; when the batch sizes differ the concatenation raises. *)
Theorem decoder_shape_contract ts th :
  (batch ts = batch th -> (width ts + width th = S + H)%nat ->
   exists f v h1 h2 h3 obs,
     (x <-- T.cat ts th ;; Linear.forward (fc self) x)%res = Ok f /\
     has_shape f (batch ts) 1024 = true /\
     view4 (batch f) 1024 1 1 f = Ok v /\
     ConvTranspose2d.forward (dc1 self) v = Ok h1 /\
     has_shape4 h1 (batch ts) 128 5 5 = true /\
     ConvTranspose2d.forward (dc2 self) (map4 F_relu h1) = Ok h2 /\
     has_shape4 h2 (batch ts) 64 13 13 = true /\
     ConvTranspose2d.forward (dc3 self) (map4 F_relu h2) = Ok h3 /\
     has_shape4 h3 (batch ts) 32 30 30 = true /\
     forward self ts th = Ok obs /\
     has_shape4 obs (batch ts) 3 64 64 = true) /\
  (batch ts = batch th -> (width ts + width th <> S + H)%nat ->
   forward self ts th = Err (DimMismatch (S + H) (width ts + width th))) /\
  (batch ts <> batch th ->
   forward self ts th = Err (BatchMismatch (batch ts) (batch th))).
Proof.
  destruct decoder_init_parts as (L & D1 & D2 & D3 & D4).
  split; [|split].
  - intros Hb Hw. unfold forward.
    destruct (cat_accepts ts th (batch ts) eq_refl (eq_sym Hb))
      as (x & -> & Bx & Wx); cbn [res_bind].
    rewrite Hw in Wx.
    destruct (linear_accepts _ _ _ _ _ L Bx Wx) as (f & -> & Sf);
      cbn [res_bind].
    pose proof Sf as Sf'. apply has_shape_iff in Sf'.
    destruct Sf' as (Bf & _).
    destruct (view4_shape (batch f) 1024 1 1 1024 f) as (v & Ev & Sv);
      [now rewrite Bf | reflexivity |].
    rewrite Bf in Sv. rewrite Ev; cbn [res_bind].
    destruct (deconv_shape _ _ _ _ _ _ _ _ _ D1 Sv) as (h1 & E1 & S1);
      [lia | lia |].
    rewrite E1; cbn [res_bind].
    change (ConvTranspose2d.out_extent 5 2 1) with 5%nat in S1.
    destruct (deconv_shape _ _ _ _ _ _ _ _ _ D2
                (map4_shape F_relu _ _ _ _ _ S1)) as (h2 & E2 & S2);
      [lia | lia |].
    rewrite E2; cbn [res_bind].
    change (ConvTranspose2d.out_extent 5 2 5) with 13%nat in S2.
    destruct (deconv_shape _ _ _ _ _ _ _ _ _ D3
                (map4_shape F_relu _ _ _ _ _ S2)) as (h3 & E3 & S3);
      [lia | lia |].
    rewrite E3; cbn [res_bind].
    change (ConvTranspose2d.out_extent 6 2 13) with 30%nat in S3.
    destruct (deconv_shape _ _ _ _ _ _ _ _ _ D4
                (map4_shape F_relu _ _ _ _ _ S3)) as (obs & E4 & S4);
      [lia | lia |].
    rewrite E4; cbn [res_bind].
    change (ConvTranspose2d.out_extent 6 2 30) with 64%nat in S4.
    exists f, v, h1, h2, h3, obs. auto 15.
  - intros Hb Hw. unfold forward.
    destruct (cat_accepts ts th _ eq_refl (eq_sym Hb)) as (x & -> & _ & Wx).
    cbn [res_bind]. rewrite <- Wx in *.
    now rewrite (linear_rejects _ _ _ _ L Hw).
  - intros Hb. unfold forward. now rewrite (cat_rejects _ _ Hb).
Qed.

End DecoderShapes.

Lemma fixture_decoder_init : ObservationModel.init 1 1 (Fixture.decoder 1 1) = true.
Proof. vm_compute. reflexivity. Qed.

Lemma decoder_shape_contract_witness :
  (exists obs,
      ObservationModel.forward (Fixture.decoder 1 1)
        (Sample.zeros 2 1) (Sample.zeros 2 1) = Ok obs /\
      has_shape4 obs 2 3 64 64 = true) /\
  ObservationModel.forward (Fixture.decoder 1 1)
    (Sample.zeros 2 1) (Sample.zeros 2 3) = Err (DimMismatch 2 4).
Proof.
  destruct (decoder_shape_contract 1 1 (Fixture.decoder 1 1)
              fixture_decoder_init (Sample.zeros 2 1) (Sample.zeros 2 1))
    as (Hok & _ & _).
  destruct (decoder_shape_contract 1 1 (Fixture.decoder 1 1)
              fixture_decoder_init (Sample.zeros 2 1) (Sample.zeros 2 3))
    as (_ & Herr & _).
  split.
  - destruct (Hok eq_refl eq_refl)
      as (f & v & h1 & h2 & h3 & obs & _ & _ & _ & _ & _ & _ & _ & _ & _ & E & Sh).
    exists obs. auto.
  - apply Herr; [reflexivity|].
    intros Hneq; vm_compute in Hneq; discriminate Hneq.
Defined.

(** ** Which images the encoder takes *)

(** A convolution with kernel 4 and stride 2 halves the extent, up to the
    border. *)
Lemma out_extent_bounds n :
  (4 <= n)%nat ->
  (n - 3 <= 2 * Conv2d.out_extent 4 2 n <= n - 2)%nat.
Proof.
  intros Hn. unfold Conv2d.out_extent.
  pose proof (Nat.div_mod_eq (n - 4) 2) as Hdiv.
  pose proof (Nat.mod_upper_bound (n - 4) 2 ltac:(lia)) as Hmod.
  lia.
Qed.

Lemma conv_rejects_channels c x :
  channels x <> Conv2d.in_channels c ->
  Conv2d.forward c x = Err (DimMismatch (Conv2d.in_channels c) (channels x)).
Proof.
  intros Hc. unfold Conv2d.forward.
  destruct (Nat.eqb_spec (channels x) (Conv2d.in_channels c));
    [contradiction | reflexivity].
Qed.

Lemma conv_rejects_small i o k s c x b h w :
  Conv2d.init i o k s c = true -> has_shape4 x b i h w = true ->
  (h < k \/ w < k)%nat ->
  exists n, Conv2d.forward c x = Err (KernelTooLarge k n) /\ (n < k)%nat.
Proof.
  rewrite Conv2d_init_iff, has_shape4_iff.
  intros (Hi & _ & Hk & _) (_ & Cx & Hx & Wx & _) Hsmall.
  unfold Conv2d.forward. rewrite Cx, Hi, Nat.eqb_refl, Hx, Wx, Hk; simpl.
  destruct (Nat.ltb_spec h k); [eauto|].
  destruct (Nat.ltb_spec w k); [eauto|]. lia.
Qed.

(** The extent after the four convolutions of the encoder. *)
Lemma encoder_extent_bounds n :
  (46 <= n)%nat ->
  let e1 := Conv2d.out_extent 4 2 n in
  let e2 := Conv2d.out_extent 4 2 e1 in
  let e3 := Conv2d.out_extent 4 2 e2 in
  let e4 := Conv2d.out_extent 4 2 e3 in
  (4 <= e1 /\ 4 <= e2 /\ 4 <= e3 /\ 1 <= e4)%nat /\
  ((62 <= n <= 77)%nat -> e4 = 2%nat).
Proof.
  intros Hn e1 e2 e3 e4.
  pose proof (out_extent_bounds n ltac:(lia)) as B1. fold e1 in B1.
  assert (H1 : (4 <= e1)%nat) by lia.
  pose proof (out_extent_bounds e1 H1) as B2. fold e2 in B2.
  assert (H2 : (4 <= e2)%nat) by lia.
  pose proof (out_extent_bounds e2 H2) as B3. fold e3 in B3.
  assert (H3 : (4 <= e3)%nat) by lia.
  pose proof (out_extent_bounds e3 H3) as B4. fold e4 in B4.
  split; [lia|]. intros Hrange. lia.
Qed.

Lemma encoder_too_small n :
  (n < 46)%nat ->
  (4 <= n)%nat ->
  (4 <= Conv2d.out_extent 4 2 n)%nat ->
  (4 <= Conv2d.out_extent 4 2 (Conv2d.out_extent 4 2 n))%nat ->
  (Conv2d.out_extent 4 2
     (Conv2d.out_extent 4 2 (Conv2d.out_extent 4 2 n)) < 4)%nat.
Proof.
  intros Hn H0 H1 H2.
  pose proof (out_extent_bounds n H0) as B1.
  pose proof (out_extent_bounds _ H1) as B2.
  pose proof (out_extent_bounds _ H2) as B3.
  lia.
Qed.

Section EncoderInputs.

Variable self : Encoder.t.
Hypothesis Hinit : Encoder.init self = true.

Lemma encoder_init_parts :
  Conv2d.init 3 32 4 2 (Encoder.cv1 self) = true /\
  Conv2d.init 32 64 4 2 (Encoder.cv2 self) = true /\
  Conv2d.init 64 128 4 2 (Encoder.cv3 self) = true /\
  Conv2d.init 128 256 4 2 (Encoder.cv4 self) = true.
Proof.
  unfold Encoder.init in Hinit. rewrite !andb_true_iff in Hinit. tauto.
Qed.

Lemma encoder_accepts obs b h w :
  has_shape4 obs b 3 h w = true -> (0 < b)%nat ->
  (46 <= h)%nat -> (46 <= w)%nat ->
  exists e,
    Encoder.forward self obs = Ok e /\
    has_shape e b
      (256 *
       (Conv2d.out_extent 4 2
          (Conv2d.out_extent 4 2
             (Conv2d.out_extent 4 2 (Conv2d.out_extent 4 2 h))) *
        Conv2d.out_extent 4 2
          (Conv2d.out_extent 4 2
             (Conv2d.out_extent 4 2 (Conv2d.out_extent 4 2 w)))))
    = true.
Proof.
  intros Hobs Hb Hh Hw.
  destruct encoder_init_parts as (I1 & I2 & I3 & I4).
  destruct (encoder_extent_bounds h Hh) as ((Hh1 & Hh2 & Hh3 & _) & _).
  destruct (encoder_extent_bounds w Hw) as ((Hw1 & Hw2 & Hw3 & _) & _).
  destruct (conv_shape _ _ _ _ _ _ _ _ _ I1 Hobs) as (h1 & E1 & S1);
    [lia | lia |].
  destruct (conv_shape _ _ _ _ _ _ _ _ _ I2 (map4_shape F_relu _ _ _ _ _ S1))
    as (h2 & E2 & S2); [lia | lia |].
  destruct (conv_shape _ _ _ _ _ _ _ _ _ I3 (map4_shape F_relu _ _ _ _ _ S2))
    as (h3 & E3 & S3); [lia | lia |].
  destruct (conv_shape _ _ _ _ _ _ _ _ _ I4 (map4_shape F_relu _ _ _ _ _ S3))
    as (h4 & E4 & S4); [lia | lia |].
  destruct (reshape_shape _ _ _ _ _ (map4_shape F_relu _ _ _ _ _ S4) Hb)
    as (e & Ee & Se).
  exists e. unfold Encoder.forward.
  rewrite E1; cbn [res_bind]. rewrite E2; cbn [res_bind].
  rewrite E3; cbn [res_bind]. rewrite E4; cbn [res_bind].
  assert (Hb3 : batch4 (map4 F_relu h3) = b).
  { pose proof (map4_shape F_relu _ _ _ _ _ S3) as S3'.
    apply has_shape4_iff in S3'. tauto. }
  rewrite Hb3. auto.
Qed.

(** X15.  The encoder takes every non-empty batch of 3-channel images of
    extents at least 46: the embedding has 256 * e(h) * e(w) features per
    image, where e is the extent after the four convolutions.  It is the
    1024 features the posterior expects for every height and width from
    62 to 77, not only for 64. *)
Theorem encoder_accepted_extents obs b h w :
  has_shape4 obs b 3 h w = true -> (0 < b)%nat ->
  (46 <= h)%nat -> (46 <= w)%nat ->
  exists e,
    Encoder.forward self obs = Ok e /\
    has_shape e b
      (256 *
       (Conv2d.out_extent 4 2
          (Conv2d.out_extent 4 2
             (Conv2d.out_extent 4 2 (Conv2d.out_extent 4 2 h))) *
        Conv2d.out_extent 4 2
          (Conv2d.out_extent 4 2
             (Conv2d.out_extent 4 2 (Conv2d.out_extent 4 2 w)))))
    = true /\
    ((62 <= h <= 77)%nat -> (62 <= w <= 77)%nat ->
     has_shape e b 1024 = true).
Proof.
  intros Hobs Hb Hh Hw.
  destruct (encoder_accepts obs b h w Hobs Hb Hh Hw) as (e & Ee & Se).
  exists e. split; [exact Ee|]. split; [exact Se|].
  intros Rh Rw.
  destruct (encoder_extent_bounds h Hh) as (_ & Eh).
  destruct (encoder_extent_bounds w Hw) as (_ & Ew).
  cbv zeta in Eh, Ew. rewrite (Eh Rh), (Ew Rw) in Se. exact Se.
Qed.

(** X16.  What the encoder rejects: a batch whose images do not have 3
    channels is rejected by the first convolution with a dimension error;
    a batch of 3-channel images of height or width below 46 is rejected by
    the first convolution whose input is smaller than its kernel. *)
Theorem encoder_rejected_inputs obs b c h w :
  has_shape4 obs b c h w = true ->
  (c <> 3%nat -> Encoder.forward self obs = Err (DimMismatch 3 c)) /\
  (c = 3%nat -> (h < 46 \/ w < 46)%nat ->
   exists n, Encoder.forward self obs = Err (KernelTooLarge 4 n) /\
             (n < 4)%nat).
Proof.
  intros Hobs.
  destruct encoder_init_parts as (I1 & I2 & I3 & I4).
  split.
  - intros Hc. unfold Encoder.forward.
    pose proof I1 as I1'. apply Conv2d_init_iff in I1'.
    destruct I1' as (Hi & _).
    pose proof Hobs as Hobs'. apply has_shape4_iff in Hobs'.
    destruct Hobs' as (_ & Cx & _).
    rewrite conv_rejects_channels by congruence.
    cbn [res_bind]. now rewrite Hi, Cx.
  - intros -> Hsmall. unfold Encoder.forward.
    destruct (le_lt_dec 4 h) as [Hh0|Hh0];
      [destruct (le_lt_dec 4 w) as [Hw0|Hw0]|].
    2,3: destruct (conv_rejects_small _ _ _ _ _ _ _ _ _ I1 Hobs
                     ltac:(lia)) as (n & -> & Hn); cbn [res_bind]; eauto.
    destruct (conv_shape _ _ _ _ _ _ _ _ _ I1 Hobs Hh0 Hw0)
      as (h1 & -> & S1); cbn [res_bind].
    pose proof (map4_shape F_relu _ _ _ _ _ S1) as S1'.
    destruct (le_lt_dec 4 (Conv2d.out_extent 4 2 h)) as [Hh1|Hh1];
      [destruct (le_lt_dec 4 (Conv2d.out_extent 4 2 w)) as [Hw1|Hw1]|].
    2,3: destruct (conv_rejects_small _ _ _ _ _ _ _ _ _ I2 S1'
                     ltac:(lia)) as (n & -> & Hn); cbn [res_bind]; eauto.
    destruct (conv_shape _ _ _ _ _ _ _ _ _ I2 S1' Hh1 Hw1)
      as (h2 & -> & S2); cbn [res_bind].
    pose proof (map4_shape F_relu _ _ _ _ _ S2) as S2'.
    destruct (le_lt_dec 4 (Conv2d.out_extent 4 2 (Conv2d.out_extent 4 2 h)))
      as [Hh2|Hh2];
      [destruct (le_lt_dec 4
                   (Conv2d.out_extent 4 2 (Conv2d.out_extent 4 2 w)))
        as [Hw2|Hw2]|].
    2,3: destruct (conv_rejects_small _ _ _ _ _ _ _ _ _ I3 S2'
                     ltac:(lia)) as (n & -> & Hn); cbn [res_bind]; eauto.
    destruct (conv_shape _ _ _ _ _ _ _ _ _ I3 S2' Hh2 Hw2)
      as (h3 & -> & S3); cbn [res_bind].
    pose proof (map4_shape F_relu _ _ _ _ _ S3) as S3'.
    assert (Hlast :
      (Conv2d.out_extent 4 2
         (Conv2d.out_extent 4 2 (Conv2d.out_extent 4 2 h)) < 4 \/
       Conv2d.out_extent 4 2
         (Conv2d.out_extent 4 2 (Conv2d.out_extent 4 2 w)) < 4)%nat).
    { destruct Hsmall as [Hs|Hs];
        [left | right]; now apply encoder_too_small. }
    destruct (conv_rejects_small _ _ _ _ _ _ _ _ _ I4 S3' Hlast)
      as (n & -> & Hn); cbn [res_bind]; eauto.
Qed.

End EncoderInputs.

Lemma sample_encoder_init : Encoder.init Sample.encoder = true.
Proof. vm_compute. reflexivity. Qed.

Lemma encoder_accepted_extents_witness :
  exists e,
    Encoder.forward Sample.encoder (Sample.frames 2) = Ok e /\
    has_shape e 2 1024 = true.
Proof.
  destruct (encoder_accepted_extents Sample.encoder sample_encoder_init
              (Sample.frames 2) 2%nat 64%nat 64%nat)
    as (e & Ee & _ & Se).
  - vm_compute. reflexivity.
  - lia.
  - lia.
  - lia.
  - exists e. split; [exact Ee|]. apply Se; lia.
Defined.

Lemma encoder_rejected_inputs_witness :
  Encoder.forward Sample.encoder
    (mkTensor4 1 64 64 [[repeat (repeat 0 64) 64]])
  = Err (DimMismatch 3 1) /\
  exists n,
    Encoder.forward Sample.encoder
      (mkTensor4 3 45 64 [repeat (repeat (repeat 0 64) 45) 3])
    = Err (KernelTooLarge 4 n) /\ (n < 4)%nat.
Proof.
  split.
  - apply (encoder_rejected_inputs Sample.encoder sample_encoder_init
             (mkTensor4 1 64 64 [[repeat (repeat 0 64) 64]])
             1%nat 1%nat 64%nat 64%nat).
    + vm_compute. reflexivity.
    + discriminate.
  - apply (encoder_rejected_inputs Sample.encoder sample_encoder_init
             (mkTensor4 3 45 64 [repeat (repeat (repeat 0 64) 45) 3])
             1%nat 3%nat 45%nat 64%nat).
    + vm_compute. reflexivity.
    + reflexivity.
    + left. lia.
Defined.

(** ** Reconstruction round trip *)

(** X17.  The models fit together: for inputs of the configured shapes and
    a non-empty batch, the mean and the deterministic state that [prior]
    returns are accepted by the decoder, the reconstructed images have
    the shape (b, 3, 64, 64) that the encoder takes, the encoder returns
    an embedding of shape (b, 1024), and [posterior] accepts that
    embedding together with the deterministic state of [prior], returning
    parameters of shape (b, S). *)
Theorem reconstruction_round_trip S A H hid rssm dec enc
    w s a h ts ta th b :
  RecurrentStateSpaceModel.init S A H hid rssm = true ->
  ObservationModel.init S H dec = true ->
  Encoder.init enc = true ->
  points_to w s ts -> points_to w a ta -> points_to w h th ->
  has_shape ts b S = true -> has_shape ta b A = true ->
  has_shape th b H = true -> (0 < b)%nat ->
  exists d r w1 m h' obs e,
    RecurrentStateSpaceModel.prior rssm s a h w = Ok ((d, r), w1) /\
    points_to w1 (loc d) m /\ points_to w1 r h' /\
    ObservationModel.forward dec m h' = Ok obs /\
    has_shape4 obs b 3 64 64 = true /\
    Encoder.forward enc obs = Ok e /\
    has_shape e b 1024 = true /\
    exists dq w2 pm psd,
      RecurrentStateSpaceModel.posterior rssm r (length (heap w1))
        (alloc e w1) = Ok (dq, w2) /\
      points_to w2 (loc dq) pm /\ points_to w2 (scale dq) psd /\
      has_shape pm b S = true /\ has_shape psd b S = true.
Proof.
  intros Hr Hd He Ps Pa Ph Ss Sa Sh Hb.
  destruct (spec_prior_shape S A H hid rssm Hr ts ta th b Ss Sa Sh)
    as (m & sd & h' & E & Sm & _ & Sh').
  destruct (prior_run_ok rssm w s a h ts ta th m sd h' Ps Pa Ph E)
    as (d & r & w1 & Hp & _ & _ & _ & _ & Pm & _ & Pr).
  pose proof Sm as Sm'. apply has_shape_iff in Sm'.
  destruct Sm' as (Bm & Wm & _).
  pose proof Sh' as Sh''. apply has_shape_iff in Sh''.
  destruct Sh'' as (Bh & Wh & _).
  destruct (decoder_shape_contract S H dec Hd m h') as (Hdec & _ & _).
  destruct Hdec
    as (f & v & h1 & h2 & h3 & obs & _ & _ & _ & _ & _ & _ & _ & _ & _ & Eo & So);
    [congruence | lia |].
  rewrite Bm in So.
  destruct (encoder_accepts enc He obs b 64 64 So Hb) as (e & Ee & Se);
    [lia | lia |].
  change (256 * _)%nat with 1024%nat in Se.
  destruct (spec_posterior_shape S A H hid rssm Hr h' e b Sh' Se)
    as (pm & psd & Eq & Spm & Spsd).
  destruct (posterior_run_ok rssm (alloc e w1) r (length (heap w1))
              h' e pm psd) as (dq & w2 & Hq & _ & _ & _ & Ppm & Ppsd);
    auto with store.
  exists d, r, w1, m, h', obs, e.
  repeat match goal with |- _ /\ _ => split end; auto.
  exists dq, w2, pm, psd. auto.
Qed.

Lemma reconstruction_round_trip_witness :
  exists d r w1 m h' obs e,
    RecurrentStateSpaceModel.prior (Sample.rssm 1 1 1 1) 0%nat 1%nat 2%nat
      (Sample.world 1 1 1 1) = Ok ((d, r), w1) /\
    points_to w1 (loc d) m /\ points_to w1 r h' /\
    ObservationModel.forward (Fixture.decoder 1 1) m h' = Ok obs /\
    has_shape4 obs 1 3 64 64 = true /\
    Encoder.forward Sample.encoder obs = Ok e /\
    has_shape e 1 1024 = true /\
    exists dq w2 pm psd,
      RecurrentStateSpaceModel.posterior (Sample.rssm 1 1 1 1) r
        (length (heap w1)) (alloc e w1) = Ok (dq, w2) /\
      points_to w2 (loc dq) pm /\ points_to w2 (scale dq) psd /\
      has_shape pm 1 1 = true /\ has_shape psd 1 1 = true.
Proof.
  apply (reconstruction_round_trip 1 1 1 1 (Sample.rssm 1 1 1 1)
           (Fixture.decoder 1 1) Sample.encoder (Sample.world 1 1 1 1)
           0%nat 1%nat 2%nat
           (Sample.zeros 1 1) (Sample.zeros 1 1) (Sample.zeros 1 1) 1%nat
           eq_refl fixture_decoder_init sample_encoder_init);
    try reflexivity.
  lia.
Defined.

(** ** Images of a batch *)

Lemma chunk_concat n (ls : list (list R)) :
  Forall (fun l => length l = n) ls ->
  chunk n (length ls) (concat ls) = ls.
Proof.
  induction 1 as [|l ls Hl _ IH]; simpl; [reflexivity|].
  rewrite firstn_app, skipn_app, Hl, Nat.sub_diag. simpl.
  replace (firstn n l) with l
    by (rewrite <- Hl; symmetry; apply firstn_all).
  replace (skipn n l) with (@nil R)
    by (rewrite <- Hl; symmetry; apply skipn_all).
  simpl. now rewrite app_nil_r, IH.
Qed.

Lemma conv_image_of i c x y :
  Conv2d.forward c x = Ok y -> (i < batch4 x)%nat ->
  batch4 y = batch4 x /\
  Conv2d.forward c (image_of i x) = Ok (image_of i y).
Proof.
  unfold Conv2d.forward, batch4.
  cbn [image_of channels height extent images].
  destruct (negb _) eqn:Hc; [discriminate|].
  destruct (height x <? _)%nat eqn:Hh; [discriminate|].
  destruct (extent x <? _)%nat eqn:Hw; [discriminate|].
  intros [= <-] Hi. cbn [images]. rewrite length_map.
  split; [reflexivity|].
  unfold image_of. cbn [channels height extent images map]. do 3 f_equal.
  symmetry. now apply nth_map_row.
Qed.

Lemma map4_image_of i f x :
  batch4 (map4 f x) = batch4 x /\
  map4 f (image_of i x) = image_of i (map4 f x).
Proof.
  unfold map4, image_of, batch4; simpl. rewrite length_map. split; auto.
  do 2 f_equal. symmetry.
  apply (map_nth (map (map (map f))) (images x) []).
Qed.

Lemma flatten_image_length c h w (img : image) :
  image_shape c h w img = true ->
  length (flatten_image img) = (c * (h * w))%nat.
Proof.
  rewrite image_shape_iff. intros (Hc & Hp). unfold flatten_image.
  rewrite (length_concat_uniform (h * w)).
  - rewrite length_map. f_equal. exact Hc.
  - rewrite Forall_map. eapply Forall_impl; [|exact Hp].
    intros p. rewrite plane_shape_iff. intros (Hh & Hr).
    rewrite (length_concat_uniform w _ Hr). f_equal. exact Hh.
Qed.

(** The rows of the reshaped batch are the flattened images. *)
Lemma reshape_rows x b c h w :
  has_shape4 x b c h w = true -> (0 < b)%nat ->
  reshape b x
  = Ok {| width := c * (h * w); rows := map flatten_image (images x) |}.
Proof.
  intros Hx Hb. pose proof Hx as Hx'. apply has_shape4_iff in Hx'.
  destruct Hx' as (Bx & Cx & Hh & Wx & Hall).
  unfold reshape. rewrite Bx, Cx, Hh, Wx.
  destruct (Nat.eqb_spec b 0); [lia|].
  rewrite (Nat.mul_comm b), Nat.Div0.mod_mul, Nat.eqb_refl.
  rewrite Nat.div_mul by lia.
  do 2 f_equal. unfold flatten.
  unfold batch4 in Bx. rewrite <- Bx, <- (length_map flatten_image).
  apply chunk_concat.
  rewrite Forall_map. eapply Forall_impl; [|exact Hall].
  intros img. apply flatten_image_length.
Qed.

Lemma image_of_shape i x b c h w :
  has_shape4 x b c h w = true -> (i < b)%nat ->
  has_shape4 (image_of i x) 1 c h w = true.
Proof.
  rewrite !has_shape4_iff. intros (Bx & Cx & Hh & Wx & Hall) Hi.
  unfold image_of, batch4 in *; simpl. repeat split; auto.
  constructor; [|constructor].
  rewrite Forall_forall in Hall. apply Hall. apply nth_In. lia.
Qed.

Section EncoderRows.

Variable self : Encoder.t.
Hypothesis Hinit : Encoder.init self = true.

(** X18.  Batch independence of the encoder: on a non-empty batch of
    images of extents at least 46, row i of the embedding is what the
    encoder returns for image i alone. *)
Theorem encoder_images_independent obs b h w :
  has_shape4 obs b 3 h w = true -> (0 < b)%nat ->
  (46 <= h)%nat -> (46 <= w)%nat ->
  exists e,
    Encoder.forward self obs = Ok e /\
    forall i, (i < b)%nat ->
      Encoder.forward self (image_of i obs) = Ok (row_of i e).
Proof.
  intros Hobs Hb Hh Hw.
  destruct (encoder_init_parts self Hinit) as (I1 & I2 & I3 & I4).
  destruct (encoder_extent_bounds h Hh) as ((Hh1 & Hh2 & Hh3 & _) & _).
  destruct (encoder_extent_bounds w Hw) as ((Hw1 & Hw2 & Hw3 & _) & _).
  destruct (conv_shape _ _ _ _ _ _ _ _ _ I1 Hobs) as (h1 & E1 & S1);
    [lia | lia |].
  destruct (conv_shape _ _ _ _ _ _ _ _ _ I2 (map4_shape F_relu _ _ _ _ _ S1))
    as (h2 & E2 & S2); [lia | lia |].
  destruct (conv_shape _ _ _ _ _ _ _ _ _ I3 (map4_shape F_relu _ _ _ _ _ S2))
    as (h3 & E3 & S3); [lia | lia |].
  destruct (conv_shape _ _ _ _ _ _ _ _ _ I4 (map4_shape F_relu _ _ _ _ _ S3))
    as (h4 & E4 & S4); [lia | lia |].
  pose proof (map4_shape F_relu _ _ _ _ _ S4) as S4'.
  assert (B0 : batch4 obs = b) by (apply has_shape4_iff in Hobs; tauto).
  assert (B1 : batch4 h1 = b) by (apply has_shape4_iff in S1; tauto).
  assert (B2 : batch4 h2 = b) by (apply has_shape4_iff in S2; tauto).
  assert (B3 : batch4 h3 = b) by (apply has_shape4_iff in S3; tauto).
  eexists. split.
  - unfold Encoder.forward.
    rewrite E1; cbn [res_bind]. rewrite E2; cbn [res_bind].
    rewrite E3; cbn [res_bind]. rewrite E4; cbn [res_bind].
    rewrite (proj1 (map4_image_of 0 F_relu h3)), B3.
    apply (reshape_rows _ _ _ _ _ S4' Hb).
  - intros i Hi. unfold Encoder.forward.
    destruct (conv_image_of i _ _ _ E1 ltac:(lia)) as (_ & ->).
    cbn [res_bind]. rewrite (proj2 (map4_image_of i F_relu h1)).
    destruct (conv_image_of i _ _ _ E2) as (_ & ->).
    { rewrite (proj1 (map4_image_of i F_relu h1)). lia. }
    cbn [res_bind]. rewrite (proj2 (map4_image_of i F_relu h2)).
    destruct (conv_image_of i _ _ _ E3) as (_ & ->).
    { rewrite (proj1 (map4_image_of i F_relu h2)). lia. }
    cbn [res_bind]. rewrite (proj2 (map4_image_of i F_relu h3)).
    destruct (conv_image_of i _ _ _ E4) as (_ & ->).
    { rewrite (proj1 (map4_image_of i F_relu h3)). lia. }
    cbn [res_bind]. rewrite (proj2 (map4_image_of i F_relu h4)).
    change (batch4 (image_of i (map4 F_relu h3))) with 1%nat.
    rewrite (reshape_rows _ 1 _ _ _ (image_of_shape i _ _ _ _ _ S4' Hi))
      by lia.
    unfold row_of, image_of. cbn [width rows images map]. do 3 f_equal.
    assert (Hlen : (i < length (images (map4 F_relu h4)))%nat).
    { pose proof S4' as S4''. apply has_shape4_iff in S4''.
      unfold batch4 in S4''. lia. }
    symmetry. now apply (nth_map_row flatten_image).
Qed.

(** X19.  An empty batch is not encoded: the convolutions pass a batch of
    no images, of extents at least 46, and the final
    [reshape(hidden.size(0), -1)] is rejected, since the width of no rows
    cannot be inferred. *)
Theorem encoder_rejects_empty_batch obs h w :
  has_shape4 obs 0 3 h w = true ->
  (46 <= h)%nat -> (46 <= w)%nat ->
  Encoder.forward self obs = Err AmbiguousReshape.
Proof.
  intros Hobs Hh Hw.
  destruct (encoder_init_parts self Hinit) as (I1 & I2 & I3 & I4).
  destruct (encoder_extent_bounds h Hh) as ((Hh1 & Hh2 & Hh3 & _) & _).
  destruct (encoder_extent_bounds w Hw) as ((Hw1 & Hw2 & Hw3 & _) & _).
  destruct (conv_shape _ _ _ _ _ _ _ _ _ I1 Hobs) as (h1 & E1 & S1);
    [lia | lia |].
  destruct (conv_shape _ _ _ _ _ _ _ _ _ I2 (map4_shape F_relu _ _ _ _ _ S1))
    as (h2 & E2 & S2); [lia | lia |].
  destruct (conv_shape _ _ _ _ _ _ _ _ _ I3 (map4_shape F_relu _ _ _ _ _ S2))
    as (h3 & E3 & S3); [lia | lia |].
  destruct (conv_shape _ _ _ _ _ _ _ _ _ I4 (map4_shape F_relu _ _ _ _ _ S3))
    as (h4 & E4 & S4); [lia | lia |].
  unfold Encoder.forward.
  rewrite E1; cbn [res_bind]. rewrite E2; cbn [res_bind].
  rewrite E3; cbn [res_bind]. rewrite E4; cbn [res_bind].
  assert (B3 : batch4 (map4 F_relu h3) = 0%nat).
  { pose proof (map4_shape F_relu _ _ _ _ _ S3) as S3'.
    apply has_shape4_iff in S3'. tauto. }
  assert (B4 : batch4 (map4 F_relu h4) = 0%nat).
  { pose proof (map4_shape F_relu _ _ _ _ _ S4) as S4'.
    apply has_shape4_iff in S4'. tauto. }
  unfold reshape. rewrite B3, B4. reflexivity.
Qed.

End EncoderRows.

Lemma encoder_images_independent_witness :
  exists e,
    Encoder.forward Sample.encoder (Sample.frames 2) = Ok e /\
    Encoder.forward Sample.encoder (image_of 1 (Sample.frames 2))
    = Ok (row_of 1 e).
Proof.
  destruct (encoder_images_independent Sample.encoder sample_encoder_init
              (Sample.frames 2) 2%nat 64%nat 64%nat)
    as (e & Ee & Hrow).
  - vm_compute. reflexivity.
  - lia.
  - lia.
  - lia.
  - exists e. split; [exact Ee|]. apply Hrow. lia.
Defined.

Lemma encoder_rejects_empty_batch_witness :
  Encoder.forward Sample.encoder (Sample.frames 0) = Err AmbiguousReshape.
Proof.
  apply (encoder_rejects_empty_batch Sample.encoder sample_encoder_init
           (Sample.frames 0) 64%nat 64%nat).
  - reflexivity.
  - lia.
  - lia.
Defined.

(** ** The prior is a distribution given the deterministic state *)

Lemma spec_prior_heads self ts ta th m sd h' :
  Spec.prior self ts ta th = Ok (m, sd, h') ->
  exists y raw,
    Linear.forward (RecurrentStateSpaceModel.fc_rnn_hidden self) h' = Ok y /\
    Linear.forward (RecurrentStateSpaceModel.fc_state_mean_prior self)
      (T.map (RecurrentStateSpaceModel.act self) y) = Ok m /\
    Linear.forward (RecurrentStateSpaceModel.fc_state_stddev_prior self)
      (T.map (RecurrentStateSpaceModel.act self) y) = Ok raw /\
    sd = Spec.stabilize (RecurrentStateSpaceModel._min_stddev self) raw.
Proof.
  unfold Spec.prior. intros Hrun.
  next_result Hrun x E1. next_result Hrun y E2. next_result Hrun g E3.
  next_result Hrun y2 E4. next_result Hrun mu E5. next_result Hrun raw E6.
  injection Hrun as <- <- <-. eauto 10.
Qed.

(** X20.  The prior depends on state and action only through the next
    deterministic state, p(s_t+1 | h_t+1): two calls of [prior], on any
    arguments and in any stores, that return the same next deterministic
    state return the same mean and the same standard deviation. *)
Theorem prior_given_next_state self
    w1 s1 a1 h1 ts1 ta1 th1 d1 r1 w1' w2 s2 a2 h2 ts2 ta2 th2 d2 r2 w2' hv :
  points_to w1 s1 ts1 -> points_to w1 a1 ta1 -> points_to w1 h1 th1 ->
  points_to w2 s2 ts2 -> points_to w2 a2 ta2 -> points_to w2 h2 th2 ->
  RecurrentStateSpaceModel.prior self s1 a1 h1 w1 = Ok ((d1, r1), w1') ->
  RecurrentStateSpaceModel.prior self s2 a2 h2 w2 = Ok ((d2, r2), w2') ->
  points_to w1' r1 hv -> points_to w2' r2 hv ->
  exists m sd,
    points_to w1' (loc d1) m /\ points_to w2' (loc d2) m /\
    points_to w1' (scale d1) sd /\ points_to w2' (scale d2) sd.
Proof.
  intros P1s P1a P1h P2s P2a P2h Hrun1 Hrun2 Hr1 Hr2.
  pose proof (prior_run self w1 s1 a1 h1 ts1 ta1 th1 P1s P1a P1h) as R1.
  pose proof (prior_run self w2 s2 a2 h2 ts2 ta2 th2 P2s P2a P2h) as R2.
  destruct (Spec.prior self ts1 ta1 th1) as [[[m1 sd1] g1]|] eqn:E1;
    [|congruence].
  destruct (Spec.prior self ts2 ta2 th2) as [[[m2 sd2] g2]|] eqn:E2;
    [|congruence].
  destruct R1 as (d & r & w' & Hp & _ & _ & _ & _ & Pm1 & Psd1 & Pr1).
  rewrite Hp in Hrun1. injection Hrun1 as -> -> ->.
  destruct R2 as (d & r & w' & Hp2 & _ & _ & _ & _ & Pm2 & Psd2 & Pr2).
  rewrite Hp2 in Hrun2. injection Hrun2 as -> -> ->.
  assert (g1 = hv) by (unfold points_to in *; congruence).
  assert (g2 = hv) by (unfold points_to in *; congruence).
  subst g1 g2.
  destruct (spec_prior_heads _ _ _ _ _ _ _ E1) as (y1 & raw1 & A1 & B1 & C1 & ->).
  destruct (spec_prior_heads _ _ _ _ _ _ _ E2) as (y2 & raw2 & A2 & B2 & C2 & ->).
  assert (y1 = y2) by congruence. subst y2.
  assert (m1 = m2) by congruence.
  assert (raw1 = raw2) by congruence. subst.
  eauto 10.
Qed.

Lemma prior_given_next_state_witness :
  exists d1 r1 w1' d2 r2 w2' m sd,
    RecurrentStateSpaceModel.prior (Sample.rssm 1 1 1 1) 0%nat 1%nat 2%nat
      (Sample.world 1 1 1 1) = Ok ((d1, r1), w1') /\
    RecurrentStateSpaceModel.prior (Sample.rssm 1 1 1 1) 3%nat 2%nat 1%nat
      (Sample.other_world 1 1 1 1) = Ok ((d2, r2), w2') /\
    points_to w1' (loc d1) m /\ points_to w2' (loc d2) m /\
    points_to w1' (scale d1) sd /\ points_to w2' (scale d2) sd.
Proof.
  destruct (RecurrentStateSpaceModel.prior (Sample.rssm 1 1 1 1)
              0%nat 1%nat 2%nat (Sample.world 1 1 1 1))
    as [[[d1 r1] w1']|] eqn:E1.
  2: { exfalso. revert E1. evaluate. discriminate. }
  destruct (RecurrentStateSpaceModel.prior (Sample.rssm 1 1 1 1)
              3%nat 2%nat 1%nat (Sample.other_world 1 1 1 1))
    as [[[d2 r2] w2']|] eqn:E2.
  2: { exfalso. revert E2. evaluate. discriminate. }
  destruct (prior_given_next_state (Sample.rssm 1 1 1 1)
              (Sample.world 1 1 1 1) 0%nat 1%nat 2%nat
              (Sample.zeros 1 1) (Sample.zeros 1 1) (Sample.zeros 1 1)
              d1 r1 w1'
              (Sample.other_world 1 1 1 1) 3%nat 2%nat 1%nat
              (Sample.zeros 1 1) (Sample.zeros 1 1) (Sample.zeros 1 1)
              d2 r2 w2'
              (mkTensor 1
                 [GRUCell.cell (Sample.gru 1 1)
                    (map F_elu (affine [[0; 0]] [0] [0; 0])) [0]])
              eq_refl eq_refl eq_refl eq_refl eq_refl eq_refl E1 E2)
    as (m & sd & Hm).
  - revert E1. evaluate. intros [= <- <- <-]. reflexivity.
  - revert E2. evaluate. intros [= <- <- <-]. reflexivity.
  - exists d1, r1, w1', d2, r2, w2', m, sd. auto.
Defined.

(** ** One imagined step *)

Lemma action_forward_ok S Hd A hid arg self w s h ts th b (training : bool) :
  ActionModel.init S Hd A hid arg self ->
  points_to w s ts -> points_to w h th ->
  has_shape ts b S = true -> has_shape th b Hd = true ->
  exists r w' a,
    ActionModel.forward self s h training w = Ok (r, w') /\
    points_to w' r a /\ has_shape a b A = true /\
    exists more, heap w' = heap w ++ more.
Proof.
  intros Hinit Ps Ph Ss Sh.
  destruct (spec_action_shape S Hd A hid arg self Hinit ts th b Ss Sh)
    as (hidden & rm & rs & _ & _ & _ & Hrm & Hrs & Ed).
  pose proof (map_shape (fun v => 5 * tanh (v / 5)) _ _ _ Hrm) as Sm.
  pose proof (map_shape
                (fun v => F_softplus (v + ActionModel.init_stddev self)
                          + ActionModel.min_stddev self) _ _ _ Hrs) as Ssd.
  destruct training.
  - pose proof (forward_train_run self w s h ts th Ps Ph) as Hrun.
    unfold Spec.sample_action in Hrun. rewrite Ed in Hrun.
    cbn [res_bind fst snd] in Hrun.
    pose proof Sm as Sm'. apply has_shape_iff in Sm'.
    destruct Sm' as (Bm & Wm & _). rewrite Bm, Wm in Hrun.
    destruct (map2_shape Rmult _ _ _ _ (draw_shape b A (gen w)) Ssd)
      as (noise & En & Sn).
    destruct (map2_shape Rplus _ _ _ _ Sm Sn) as (sample & Esm & Ssm).
    rewrite En in Hrun; cbn [res_bind] in Hrun.
    rewrite Esm in Hrun; cbn [res_bind] in Hrun.
    destruct Hrun as (r & w' & Hf & Hheap & _ & _ & Pr).
    exists r, w', (T.map tanh sample). repeat split; auto.
    now apply map_shape.
  - pose proof (forward_eval_run self w s h ts th Ps Ph) as Hrun.
    unfold Spec.mode_action in Hrun. rewrite Ed in Hrun.
    cbn [res_bind fst] in Hrun.
    destruct Hrun as (r & w' & Hf & (Hheap & _) & _ & Pr).
    eexists r, w', _. repeat split; eauto. now apply map_shape.
Qed.

(** X21.  One imagined step runs through: with the four models built for
    the same widths S, A, H, on a state of shape (b, S) and a deterministic
    state of shape (b, H), the action model returns an action of shape
    (b, A) (in either mode); [prior] accepts state, that action and the
    deterministic state, and returns a mean of shape (b, S) and a next
    deterministic state of shape (b, H); the reward model and the value
    model accept that mean and that state and each returns a tensor of
    shape (b, 1). *)
Theorem imagination_step S A H hid hp hr hv arg rssm policy rm vm
    w s h ts th b (training : bool) :
  RecurrentStateSpaceModel.init S A H hid rssm = true ->
  ActionModel.init S H A hp arg policy ->
  RewardModel.init S H hr rm = true ->
  ValueModel.init S H hv vm = true ->
  points_to w s ts -> points_to w h th ->
  has_shape ts b S = true -> has_shape th b H = true ->
  exists a w1 ta d r w2 m h' rew w3 treward val w4 tvalue,
    ActionModel.forward policy s h training w = Ok (a, w1) /\
    points_to w1 a ta /\ has_shape ta b A = true /\
    RecurrentStateSpaceModel.prior rssm s a h w1 = Ok ((d, r), w2) /\
    points_to w2 (loc d) m /\ has_shape m b S = true /\
    points_to w2 r h' /\ has_shape h' b H = true /\
    RewardModel.forward rm (loc d) r w2 = Ok (rew, w3) /\
    points_to w3 rew treward /\ has_shape treward b 1 = true /\
    ValueModel.forward vm (loc d) r w3 = Ok (val, w4) /\
    points_to w4 val tvalue /\ has_shape tvalue b 1 = true.
Proof.
  intros Hrssm Hpol Hrew Hval Ps Ph Ss Sh.
  destruct (action_forward_ok S H A hp arg policy w s h ts th b training
              Hpol Ps Ph Ss Sh)
    as (a & w1 & ta & Ha & Pa & Sa & (more & Hheap)).
  pose proof (heap_grows_points_to _ _ _ _ _ Hheap Ps) as Ps1.
  pose proof (heap_grows_points_to _ _ _ _ _ Hheap Ph) as Ph1.
  destruct (spec_prior_shape S A H hid rssm Hrssm ts ta th b Ss Sa Sh)
    as (m & sd & h' & E & Sm & _ & Sh').
  destruct (prior_run_ok rssm w1 s a h ts ta th m sd h' Ps1 Pa Ph1 E)
    as (d & r & w2 & Hp & _ & _ & _ & _ & Pm & _ & Pr).
  pose proof Sm as Sm'. apply has_shape_iff in Sm'.
  destruct Sm' as (Bm & Wm & _).
  pose proof Sh' as Sh''. apply has_shape_iff in Sh''.
  destruct Sh'' as (Bh & Wh & _).
  destruct (reward_init_parts _ _ _ _ Hrew) as (I1 & I2 & I3 & I4).
  destruct (value_init_parts _ _ _ _ Hval) as (J1 & J2 & J3 & J4).
  destruct (scalar_head_accepts S H hr _ _ _ _ (RewardModel.act rm)
              I1 I2 I3 I4 m h' b Bm Bh ltac:(lia)) as (treward & Er & Sr).
  destruct (scalar_head_accepts S H hv _ _ _ _ (ValueModel.act vm)
              J1 J2 J3 J4 m h' b Bm Bh ltac:(lia)) as (tvalue & Ev & Sv).
  pose proof (reward_run rm w2 (loc d) r m h' Pm Pr) as Rr.
  rewrite Er in Rr. destruct Rr as (rew & w3 & Hr & Hext & _ & Prew).
  pose proof (value_run vm w3 (loc d) r m h'
                (extends_points_to _ _ _ _ Hext Pm)
                (extends_points_to _ _ _ _ Hext Pr)) as Rv.
  rewrite Ev in Rv. destruct Rv as (val & w4 & Hv & _ & _ & Pval).
  exists a, w1, ta, d, r, w2, m, h', rew, w3, treward, val, w4, tvalue.
  repeat match goal with |- _ /\ _ => split end; auto.
Qed.

Lemma imagination_step_witness :
  exists a w1 ta d r w2 m h' rew w3 treward val w4 tvalue,
    ActionModel.forward (Sample.policy 1 1 1 1) 0%nat 2%nat true
      (Sample.world 2 1 1 1) = Ok (a, w1) /\
    points_to w1 a ta /\ has_shape ta 2 1 = true /\
    RecurrentStateSpaceModel.prior (Sample.rssm 1 1 1 1) 0%nat a 2%nat w1
    = Ok ((d, r), w2) /\
    points_to w2 (loc d) m /\ has_shape m 2 1 = true /\
    points_to w2 r h' /\ has_shape h' 2 1 = true /\
    RewardModel.forward (Fixture.reward 1 1 2) (loc d) r w2 = Ok (rew, w3) /\
    points_to w3 rew treward /\ has_shape treward 2 1 = true /\
    ValueModel.forward (Fixture.value 1 1 2) (loc d) r w3 = Ok (val, w4) /\
    points_to w4 val tvalue /\ has_shape tvalue 2 1 = true.
Proof.
  apply (imagination_step 1 1 1 1 1 2 2 5 (Sample.rssm 1 1 1 1)
           (Sample.policy 1 1 1 1) (Fixture.reward 1 1 2)
           (Fixture.value 1 1 2) (Sample.world 2 1 1 1) 0%nat 2%nat
           (Sample.zeros 2 1) (Sample.zeros 2 1) 2%nat true
           eq_refl sample_policy_init eq_refl eq_refl
           eq_refl eq_refl eq_refl eq_refl).
Defined.

(** ** Rows of a decoded batch *)





Section DecoderRows.

Import ObservationModel.

Variables (S H : nat) (self : t).
Hypothesis Hinit : init S H self = true.


End DecoderRows.

